(** * django_replicated: the failover router and its checker thread

    A shallow embedding of [django_replicated/failover_router.py]:
    the routers [FailoverReplicationRouter] and
    [MasterFailoverReplicationRouter] (the registry of master, active slaves
    and deactivated slaves) and the checker threads [FailoverThread] and
    [MasterFailoverThread] (one [check] per tick).

    Python objects are records, attribute assignment is record update,
    in-place list mutation is replacement of the list held by the attribute,
    and an exception is an outcome [Raise] that keeps the state reached
    when it was raised. *)

From stdpp Require Import base decidable option list strings.
From Stdlib Require Import QArith.

Open Scope string_scope.
Open Scope list_scope.
Open Scope nat_scope.

(** ** Python values used as aliases *)

(** An alias is a [str]; the master can also be [None]. *)
Inductive pyval : Type :=
  | PyNone
  | PyStr (s : string).

#[global] Instance pyval_eq_dec : EqDecision pyval.
Proof. solve_decision. Defined.

(** Truth value of [if v:] : [None] and the empty string are false. *)
Definition truthy (v : pyval) : bool :=
  match v with
  | PyNone => false
  | PyStr s => negb (bool_decide (s = ""))
  end.

(** [django.db.utils.DEFAULT_DB_ALIAS], read by the routers as
    [self.DEFAULT_DB_ALIAS]; the tests compare it with ['default']. *)
Definition DEFAULT_DB_ALIAS : pyval := PyStr "default".

(** ** Exceptions and outcomes *)

Inductive exn : Type :=
  | ValueError       (* list.remove(x): x not in list *)
  | AttributeError   (* attribute missing on the object *)
  | RuntimeError     (* cannot join thread before it is started *)
  | TypeError.       (* None * 2; calling an object that is not callable *)

(** A call either returns in state [a] or raises [e], leaving the object
    in the state [a] it had reached. *)
Inductive outcome (A : Type) : Type :=
  | Return (a : A)
  | Raise (e : exn) (a : A).
Arguments Return {A} a.
Arguments Raise {A} e a.

Definition state_of {A} (o : outcome A) : A :=
  match o with Return a => a | Raise _ a => a end.

Definition bind {A} (o : outcome A) (k : A -> outcome A) : outcome A :=
  match o with
  | Return a => k a
  | Raise e a => Raise e a
  end.

Notation "'do' x <- o ; k" := (bind o (fun x => k))
  (at level 10, x name, o at level 100, k at level 200).

(** ** Python list primitives *)

(** [l.remove(x)]: drops the first occurrence, [None] when [x] is absent
    (Python raises ValueError). *)
Fixpoint py_remove (x : pyval) (l : list pyval) : option (list pyval) :=
  match l with
  | [] => None
  | y :: l' => if decide (x = y) then Some l' else cons y <$> py_remove x l'
  end.

(** [x in l] *)
Definition py_in (x : pyval) (l : list pyval) : bool := bool_decide (x ∈ l).

(** [list(set(l))]: the distinct elements of [l] in the iteration order of
    the set, which Python leaves unspecified. *)
Class SetOrder := {
  list_of_set : list pyval -> list pyval;
  list_of_set_NoDup : forall l, NoDup (list_of_set l);
  list_of_set_elem : forall l x, x ∈ list_of_set l <-> x ∈ l
}.

(** One such order: keep the last occurrence of each element. *)
#[global] Program Instance remove_dups_order : SetOrder :=
  {| list_of_set := remove_dups |}.
Next Obligation. apply NoDup_remove_dups. Qed.
Next Obligation. intros. apply elem_of_remove_dups. Qed.

(** ** The routers *)

Inductive router_cls : Type :=
  | FailoverReplicationRouter
  | MasterFailoverReplicationRouter.

Inductive thread_cls : Type :=
  | FailoverThread
  | MasterFailoverThread.

#[global] Instance router_cls_eq_dec : EqDecision router_cls.
Proof. solve_decision. Defined.
#[global] Instance thread_cls_eq_dec : EqDecision thread_cls.
Proof. solve_decision. Defined.

(** The attributes of a router object.  [MASTER] exists only on a
    [MasterFailoverReplicationRouter]; on the base class the field is never
    read (reading it is an AttributeError, see [MasterFailoverThread]).
    [thread] is a reference into the table of thread objects. *)
Record router : Type := Router {
  cls : router_cls;
  SLAVES : list pyval;
  _master : pyval;
  deactivated_slaves : list pyval;
  MASTER : pyval;
  thread : option nat;
  checker_cls : thread_cls
}.

Definition set_SLAVES (l : list pyval) (r : router) : router :=
  Router (cls r) l (_master r) (deactivated_slaves r) (MASTER r) (thread r) (checker_cls r).
Definition set__master (v : pyval) (r : router) : router :=
  Router (cls r) (SLAVES r) v (deactivated_slaves r) (MASTER r) (thread r) (checker_cls r).
Definition set_deactivated_slaves (l : list pyval) (r : router) : router :=
  Router (cls r) (SLAVES r) (_master r) l (MASTER r) (thread r) (checker_cls r).
Definition set_MASTER (v : pyval) (r : router) : router :=
  Router (cls r) (SLAVES r) (_master r) (deactivated_slaves r) v (thread r) (checker_cls r).
Definition set_thread (t : option nat) (r : router) : router :=
  Router (cls r) (SLAVES r) (_master r) (deactivated_slaves r) (MASTER r) t (checker_cls r).

Section Routers.
Context `{SetOrder}.

(** [router.master] (property getter), dispatched on the class. *)
Definition master (r : router) : pyval :=
  match cls r with
  | FailoverReplicationRouter => _master r
  | MasterFailoverReplicationRouter => MASTER r
  end.

(** [MasterFailoverReplicationRouter.master] setter: the promotion swap. *)
Definition promote (alias : pyval) (r : router) : outcome router :=
  if decide (MASTER r = alias) then Return r
  else
    let was_master := MASTER r in
    let r := set_SLAVES (list_of_set (SLAVES r ++ [was_master])) r in
    let r := set_MASTER alias r in
    match py_remove alias (SLAVES r) with
    | Some l => Return (set_SLAVES l r)
    | None => Raise ValueError r
    end.

(** [router.master = alias] (property setter), dispatched on the class. *)
Definition set_master (alias : pyval) (r : router) : outcome router :=
  match cls r with
  | FailoverReplicationRouter => Return (set__master alias r)
  | MasterFailoverReplicationRouter => promote alias r
  end.

Definition deactivate_slave (alias : pyval) (r : router) : outcome router :=
  let r := if negb (py_in alias (deactivated_slaves r))
           then set_deactivated_slaves (deactivated_slaves r ++ [alias]) r
           else r in
  if py_in alias (SLAVES r) then
    match py_remove alias (SLAVES r) with
    | Some l => Return (set_SLAVES l r)
    | None => Raise ValueError r
    end
  else Return r.

Definition activate_slave (alias : pyval) (r : router) : outcome router :=
  let r := if negb (py_in alias (SLAVES r))
           then set_SLAVES (SLAVES r ++ [alias]) r
           else r in
  if py_in alias (deactivated_slaves r) then
    match py_remove alias (deactivated_slaves r) with
    | Some l => Return (set_deactivated_slaves l r)
    | None => Raise ValueError r
    end
  else Return r.

Definition deactivate_master (r : router) : outcome router :=
  let m := master r in
  if truthy m then set_master PyNone r else Return r.

Definition activate_master (r : router) : outcome router :=
  if negb (truthy (master r)) then set_master DEFAULT_DB_ALIAS r else Return r.

(** [db_for_write] and [db_for_read]: [base] is the alias returned by the
    [ReplicationRouter] method of the same name.  The only [return] of the
    body is the one under the [if]; otherwise the function falls off its
    end, which in Python returns [None]. *)
Definition db_for_write (base : pyval) (r : router) : pyval :=
  if bool_decide (base = DEFAULT_DB_ALIAS) && bool_decide (master r = PyNone)
  then PyNone
  else PyNone.

Definition db_for_read (base : pyval) (r : router) : pyval :=
  if bool_decide (base = DEFAULT_DB_ALIAS) && bool_decide (master r = PyNone)
  then PyNone
  else PyNone.

End Routers.

(** ** The checker threads *)

(** The probes of one tick: [db_is_alive] and [db_is_read_only] are methods
    of the thread that call out to the database (the tests replace them by
    functions of the alias). *)
Record probes : Type := Probes {
  db_is_alive : pyval -> bool;
  db_is_read_only : pyval -> bool
}.

(** A thread object: its class, the constructor arguments, the [_stop]
    event and whether [start()] was called. *)
Record checker : Type := Checker {
  kind : thread_cls;
  check_interval : option Q;
  do_check_master : bool;
  _stop : bool;
  started : bool
}.

(** Result of a loop given a bound on its iterations: [None] when the
    bound is reached before the loop ends. *)
Definition bounded (A : Type) : Type := option (outcome A).

Definition and_then {A} (o : bounded A) (k : A -> bounded A) : bounded A :=
  match o with
  | Some (Return a) => k a
  | other => other
  end.

Section Threads.
Context `{SetOrder}.

(** [for alias in self.router.SLAVES: if not self.db_is_alive(alias):
    self.router.deactivate_slave(alias)].  The list iterator holds the list
    object and an index [i]; [deactivate_slave] mutates that same list, so
    each step reads position [i] of the list as it is then. *)
Fixpoint check_alive (fuel i : nat) (p : probes) (r : router) : bounded router :=
  match fuel with
  | O => None
  | S fuel =>
    match SLAVES r !! i with
    | None => Some (Return r)
    | Some alias =>
      if negb (db_is_alive p alias)
      then and_then (Some (deactivate_slave alias r)) (check_alive fuel (S i) p)
      else check_alive fuel (S i) p r
    end
  end.

(** [for alias in self.router.deactivated_slaves: if self.db_is_alive(alias):
    self.router.activate_slave(alias)], iterated the same way. *)
Fixpoint check_alive_again (fuel i : nat) (p : probes) (r : router) : bounded router :=
  match fuel with
  | O => None
  | S fuel =>
    match deactivated_slaves r !! i with
    | None => Some (Return r)
    | Some alias =>
      if db_is_alive p alias
      then and_then (Some (activate_slave alias r)) (check_alive_again fuel (S i) p)
      else check_alive_again fuel (S i) p r
    end
  end.

(** Neither list grows while it is iterated, so one more step than its
    length at the start is enough (see [check_slaves_fuel]). *)
Definition check_slaves (p : probes) (r : router) : bounded router :=
  and_then (check_alive (S (length (SLAVES r))) 0 p r)
    (fun r => check_alive_again (S (length (deactivated_slaves r))) 0 p r).

(** [FailoverThread.check_master] *)
Definition FailoverThread_check_master (p : probes) (r : router) : outcome router :=
  let alias := DEFAULT_DB_ALIAS in
  if truthy (master r) then
    if negb (db_is_alive p alias) then deactivate_master r else Return r
  else
    if db_is_alive p alias then activate_master r else Return r.

(** [for alias in self.router.SLAVES: if not self.db_is_read_only(alias):
    self.router.master = alias; break] *)
Fixpoint promote_first (p : probes) (l : list pyval) (r : router) : outcome router :=
  match l with
  | [] => Return r
  | alias :: l' =>
    if negb (db_is_read_only p alias) then set_master alias r
    else promote_first p l' r
  end.

(** [MasterFailoverThread.check_master]; [self.router.MASTER] is an
    attribute of [MasterFailoverReplicationRouter] only. *)
Definition MasterFailoverThread_check_master (p : probes) (r : router) : outcome router :=
  match cls r with
  | FailoverReplicationRouter => Raise AttributeError r
  | MasterFailoverReplicationRouter =>
    if db_is_read_only p (MASTER r) then promote_first p (SLAVES r) r
    else Return r
  end.

Definition check_master (t : checker) (p : probes) (r : router) : outcome router :=
  match kind t with
  | FailoverThread => FailoverThread_check_master p r
  | MasterFailoverThread => MasterFailoverThread_check_master p r
  end.

(** [check]: one tick. *)
Definition check (t : checker) (p : probes) (r : router) : bounded router :=
  and_then (check_slaves p r)
    (fun r => if do_check_master t then Some (check_master t p r) else Some (Return r)).

(** The iterations of [run], one [check] per entry of [ps], in order. *)
Fixpoint ticks (t : checker) (ps : list probes) (r : router) : bounded router :=
  match ps with
  | [] => Some (Return r)
  | p :: ps' => and_then (check t p r) (ticks t ps')
  end.

End Threads.

(** ** Construction and the thread life cycle *)

(** [django.conf.settings]; an option that is not set is [None], and
    [getattr(settings, name, default)] reads it. *)
Record settings : Type := Settings {
  DATABASE_SLAVES : list pyval;
  DATABASE_ASYNC_CHECK : option bool;
  DATABASE_CHECK_MASTER : option bool;
  DATABASE_ASYNC_CHECK_INTERVAL : option Q
}.

Definition getattr {A} (o : option A) (d : A) : A := default d o.

(** The objects of the process: the router and every thread object created
    so far (a thread that was started stays alive while it runs, whether or
    not the router still refers to it). *)
Record process : Type := Process {
  threads : list checker;
  this : router
}.

Definition set__stop (b : bool) (t : checker) : checker :=
  Checker (kind t) (check_interval t) (do_check_master t) b (started t).
Definition set_started (b : bool) (t : checker) : checker :=
  Checker (kind t) (check_interval t) (do_check_master t) (_stop t) b.

(** [checker_cls] as a class attribute. *)
Definition class_checker_cls (c : router_cls) : thread_cls :=
  match c with
  | FailoverReplicationRouter => FailoverThread
  | MasterFailoverReplicationRouter => MasterFailoverThread
  end.

(** Modelled from the spec: [ReplicationRouter.__init__] (router.py) is the
    part of the constructor that sets [SLAVES]; it is taken to be the
    statically configured slave alias list.  The remaining attributes are set
    by the two [__init__] of failover_router.py. *)
Definition init (c : router_cls) (cfg : list pyval) : router :=
  {| cls := c;
     SLAVES := cfg;
     _master := DEFAULT_DB_ALIAS;
     deactivated_slaves := [];
     MASTER := match c with
               | FailoverReplicationRouter => PyNone
               | MasterFailoverReplicationRouter => DEFAULT_DB_ALIAS
               end;
     thread := None;
     checker_cls := class_checker_cls c |}.

(** The registry contents of a router: master, active and deactivated
    slaves. *)
Definition registry (r : router) : pyval * list pyval * list pyval :=
  (master r, SLAVES r, deactivated_slaves r).

(** A checker whose loop was started and not yet told to stop. *)
Definition running (t : checker) : bool := started t && negb (_stop t).

Definition running_checkers (pr : process) : nat :=
  length (filter (fun t => running t = true) (threads pr)).

(** [_start_thread(cls, **kw)]: a new thread object, assigned to
    [self.thread], then started. *)
Definition _start_thread (c : option thread_cls) (interval : option Q)
    (check_master : bool) (pr : process) : process :=
  let c := default (checker_cls (this pr)) c in
  let ref := length (threads pr) in
  let pr := Process (threads pr ++ [Checker c interval check_master false false])
                    (set_thread (Some ref) (this pr)) in
  Process (alter (set_started true) ref (threads pr)) (this pr).

Definition start_thread (force : bool) (s : settings) (pr : process) : process :=
  let do_check_master := getattr (DATABASE_CHECK_MASTER s) false in
  if force || negb (bool_decide (SLAVES (this pr) = [])) || do_check_master
  then _start_thread (Some (checker_cls (this pr)))
         (Some (getattr (DATABASE_ASYNC_CHECK_INTERVAL s) 5%Q)) do_check_master pr
  else pr.

(** [FailoverThread.join]: set the event, then [Thread.join], which refuses
    a thread that was never started and otherwise waits, up to the timeout,
    for the thread to end.  [ended] tells whether the thread has ended when
    that wait is over; the scheduler and the time the probes take decide
    it.  If it has not, [Thread.join] gives up and returns.  If it has,
    [Thread.join] goes on to call [self._stop()]: that is a method of
    [threading.Thread] on Python 3, but [__init__] has bound the name
    [_stop] of the instance to the Event, and calling an Event is a
    TypeError.  (On Python 2 the method is named [_Thread__stop] and is not
    shadowed.) *)
Definition join (ref : nat) (timeout : Q) (ended : bool) (pr : process)
    : outcome process :=
  let pr := Process (alter (set__stop true) ref (threads pr)) (this pr) in
  match threads pr !! ref with
  | Some t =>
    if started t
    then if ended then Raise TypeError pr else Return pr
    else Raise RuntimeError pr
  | None => Return pr
  end.

(** [stop_thread]; the timeout [check_interval*2] is a TypeError when the
    thread was built without an interval.  [ended] is passed on to [join]. *)
Definition stop_thread (ended : bool) (pr : process) : outcome process :=
  match thread (this pr) with
  | Some ref =>
    match check_interval <$> threads pr !! ref with
    | Some (Some i) => join ref (i * 2)%Q ended pr
    | Some None => Raise TypeError pr
    | None => Return pr
    end
  | None => Return pr
  end.

(** [__init__(run_thread, checker_cls)] *)
Definition new_router (c : router_cls) (s : settings)
    (run_thread : option bool) (checker : option thread_cls) : process :=
  let r := init c (DATABASE_SLAVES s) in
  let r := Router (cls r) (SLAVES r) (_master r) (deactivated_slaves r) (MASTER r)
             (thread r) (default (checker_cls r) checker) in
  let _run := match run_thread with
              | Some b => b
              | None => getattr (DATABASE_ASYNC_CHECK s) false
              end in
  if _run then start_thread false s (Process [] r) else Process [] r.

(** ** Sequences of registry operations *)

Inductive reg_op : Type :=
  | Deactivate_slave (alias : pyval)
  | Activate_slave (alias : pyval)
  | Deactivate_master
  | Activate_master
  | Set_master (alias : pyval).

Section Operations.
Context `{SetOrder}.

Definition exec (op : reg_op) (r : router) : outcome router :=
  match op with
  | Deactivate_slave alias => deactivate_slave alias r
  | Activate_slave alias => activate_slave alias r
  | Deactivate_master => deactivate_master r
  | Activate_master => activate_master r
  | Set_master alias => set_master alias r
  end.

(** The state after the calls [ops], made one after the other on the same
    router object; a call that raises leaves the object as it was when the
    exception left the method. *)
Definition exec_all (ops : list reg_op) (r : router) : router :=
  foldl (fun r op => state_of (exec op r)) r ops.

(** The calls a [MasterFailoverThread] with master checking makes on its
    router: each alias is one it has just read from the list it iterates. *)
Inductive checker_call (r : router) : reg_op -> Prop :=
  | call_deactivate_slave alias :
      alias ∈ SLAVES r -> checker_call r (Deactivate_slave alias)
  | call_activate_slave alias :
      alias ∈ deactivated_slaves r -> checker_call r (Activate_slave alias)
  | call_set_master alias :
      alias ∈ SLAVES r -> checker_call r (Set_master alias).

(** A sequence of such calls, each made in the state the ones before it
    have left. *)
Inductive checker_trace : router -> list reg_op -> Prop :=
  | trace_nil r : checker_trace r []
  | trace_cons r op ops :
      checker_call r op ->
      checker_trace (state_of (exec op r)) ops ->
      checker_trace r (op :: ops).

End Operations.

(** ** Invariants *)

Definition disjoint_slaves (r : router) : Prop :=
  forall a, a ∈ SLAVES r -> a ∈ deactivated_slaves r -> False.

(** No alias twice in either list, and no alias in both. *)
Definition registry_inv (r : router) : Prop :=
  NoDup (SLAVES r) /\ NoDup (deactivated_slaves r) /\ disjoint_slaves r.

(** The promotion router also keeps its master out of both lists. *)
Definition promotion_inv (r : router) : Prop :=
  cls r = MasterFailoverReplicationRouter /\ registry_inv r /\
  (MASTER r ∉ SLAVES r) /\ (MASTER r ∉ deactivated_slaves r).

(** Number of occurrences of [x] in [l]. *)
Definition occurrences (x : pyval) (l : list pyval) : nat :=
  length (filter (fun y => y = x) l).

(** ** Configurations and probes used in the examples *)

Definition slave1 : pyval := PyStr "slave1".
Definition slave2 : pyval := PyStr "slave2".
Definition slave3 : pyval := PyStr "slave3".

(** Threads as [start_thread] builds them with the default interval. *)
Definition liveness_checker (check_master : bool) : checker :=
  Checker FailoverThread (Some 5%Q) check_master false true.
Definition promotion_checker : checker :=
  Checker MasterFailoverThread (Some 5%Q) true false true.

(** No database answers; every database is read-only but [slave1]. *)
Definition all_dead : probes :=
  Probes (fun _ => false) (fun alias => bool_decide (alias <> slave1)).
(** Every database answers and is writable. *)
Definition all_alive : probes :=
  Probes (fun _ => true) (fun _ => false).

(** Only [alias] answers; only [writable] is not read-only. *)
Definition only (alias writable : pyval) : probes :=
  Probes (fun x => bool_decide (x = alias)) (fun x => bool_decide (x <> writable)).

(** A thread built as the tests build it, not started. *)
Definition test_thread (c : thread_cls) (check_master : bool) : checker :=
  Checker c None check_master false false.

(** The settings of the tests: two slaves, every other option left unset. *)
Definition two_slaves : settings :=
  Settings [slave1; slave2] None None None.

(** ** Measures used to follow the checker over several ticks *)

(** Active slaves that do not answer the probe, and deactivated slaves
    that do (each counted as often as it is listed). *)
Definition dead_active (p : probes) (r : router) : nat :=
  length (filter (fun a => db_is_alive p a = false) (SLAVES r)).
Definition alive_deactivated (p : probes) (r : router) : nat :=
  length (filter (fun a => db_is_alive p a = true) (deactivated_slaves r)).

(** The entries of a list at positions 0, 2, 4, ... and at 1, 3, 5, ... *)
Fixpoint evens (l : list pyval) : list pyval :=
  match l with
  | [] => []
  | x :: l' => x :: match l' with [] => [] | _ :: l'' => evens l'' end
  end.
Definition odds (l : list pyval) : list pyval :=
  match l with
  | [] => []
  | _ :: l' => evens l'
  end.

(** Another order in which [list(set(l))] may list the distinct elements
    of [l]: the reverse of [remove_dups_order].  (Not an instance: the
    examples below that name no order use [remove_dups_order].) *)
Program Definition reversed_order : SetOrder :=
  {| list_of_set := fun l => reverse (remove_dups l) |}.
Next Obligation. intros. rewrite reverse_Permutation. apply NoDup_remove_dups. Qed.
Next Obligation. intros. rewrite elem_of_reverse. apply elem_of_remove_dups. Qed.

(** Every database answers; only [slave1] is writable, then every database
    but [slave1] is. *)
Definition slave1_writable : probes :=
  Probes (fun _ => true) (fun alias => bool_decide (alias <> slave1)).
Definition slave1_read_only : probes :=
  Probes (fun _ => true) (fun alias => bool_decide (alias = slave1)).

(** * Properties *)

(** ** [list.remove] *)

Lemma py_remove_Some x l l' : py_remove x l = Some l' -> l ≡ₚ x :: l'.
Proof.
  revert l'. induction l as [|y l IH]; intros l'; simpl; [done|].
  destruct (decide (x = y)) as [->|Hne].
  - by intros [= ->].
  - destruct (py_remove x l) as [k|] eqn:E; simpl; [|done].
    intros [= <-]. rewrite (IH k eq_refl). apply Permutation_swap.
Qed.

Lemma py_remove_elem x l : x ∈ l -> is_Some (py_remove x l).
Proof.
  induction l as [|y l IH]; simpl.
  - by intros ?%elem_of_nil.
  - intros Hx. destruct (decide (x = y)); [by eexists|].
    apply elem_of_cons in Hx as [?|Hx]; [done|].
    destruct (IH Hx) as [k ->]. by eexists.
Qed.

Lemma py_remove_not_elem x l : x ∉ l -> py_remove x l = None.
Proof.
  intros Hx. destruct (py_remove x l) as [k|] eqn:E; [|done].
  apply py_remove_Some in E. destruct Hx. rewrite E. by left.
Qed.

Lemma py_remove_length x l l' : py_remove x l = Some l' -> length l = S (length l').
Proof. intros E%py_remove_Some. by rewrite E. Qed.

Lemma py_remove_NoDup x l l' :
  NoDup l -> py_remove x l = Some l' -> NoDup l' /\ x ∉ l'.
Proof.
  intros Hl E%py_remove_Some. rewrite E in Hl.
  apply NoDup_cons in Hl. tauto.
Qed.

Lemma py_remove_subseteq x l l' y : py_remove x l = Some l' -> y ∈ l' -> y ∈ l.
Proof. intros E%py_remove_Some Hy. rewrite E. by right. Qed.

Lemma py_remove_other x l l' y :
  py_remove x l = Some l' -> y ≠ x -> y ∈ l -> y ∈ l'.
Proof.
  intros E%py_remove_Some Hne Hy. rewrite E in Hy.
  apply elem_of_cons in Hy as [?|?]; done.
Qed.

Lemma py_in_true x l : py_in x l = true <-> x ∈ l.
Proof. unfold py_in. apply bool_decide_eq_true. Qed.

Lemma py_in_false x l : py_in x l = false <-> x ∉ l.
Proof. unfold py_in. apply bool_decide_eq_false. Qed.

Lemma occurrences_not_elem x l : x ∉ l -> occurrences x l = 0.
Proof.
  unfold occurrences. induction l as [|y l IH]; [done|].
  intros Hx. apply not_elem_of_cons in Hx as [Hne Hx].
  rewrite filter_cons_False by done. by apply IH.
Qed.

Lemma occurrences_NoDup x l : NoDup l -> x ∈ l -> occurrences x l = 1.
Proof.
  induction 1 as [|y l Hy Hl IH].
  - by intros ?%elem_of_nil.
  - intros Hx. unfold occurrences. destruct (decide (y = x)) as [->|Hne].
    + rewrite filter_cons_True by done. simpl. f_equal.
      by apply occurrences_not_elem.
    + rewrite filter_cons_False by done. apply IH.
      apply elem_of_cons in Hx as [?|?]; done.
Qed.

(** ** The registry operations, one call at a time *)

Section RegistryFacts.
Context `{SetOrder}.

Lemma deactivate_slave_spec alias r :
  exists r', deactivate_slave alias r = Return r' /\
    cls r' = cls r /\ _master r' = _master r /\ MASTER r' = MASTER r /\
    thread r' = thread r /\ checker_cls r' = checker_cls r /\
    deactivated_slaves r' =
      (if py_in alias (deactivated_slaves r) then deactivated_slaves r
       else deactivated_slaves r ++ [alias]) /\
    (if py_in alias (SLAVES r)
     then py_remove alias (SLAVES r) = Some (SLAVES r')
     else SLAVES r' = SLAVES r).
Proof.
  unfold deactivate_slave.
  destruct (py_in alias (deactivated_slaves r)) eqn:Ed; simpl;
    destruct (py_in alias (SLAVES r)) eqn:Es; simpl;
    try (eexists; split; [reflexivity|]; simpl; by rewrite ?Ed, ?Es);
    apply py_in_true, py_remove_elem in Es as [l El]; rewrite El;
    (eexists; split; [reflexivity|]; simpl; by rewrite ?Ed).
Qed.

Lemma activate_slave_spec alias r :
  exists r', activate_slave alias r = Return r' /\
    cls r' = cls r /\ _master r' = _master r /\ MASTER r' = MASTER r /\
    thread r' = thread r /\ checker_cls r' = checker_cls r /\
    SLAVES r' =
      (if py_in alias (SLAVES r) then SLAVES r else SLAVES r ++ [alias]) /\
    (if py_in alias (deactivated_slaves r)
     then py_remove alias (deactivated_slaves r) = Some (deactivated_slaves r')
     else deactivated_slaves r' = deactivated_slaves r).
Proof.
  unfold activate_slave.
  destruct (py_in alias (SLAVES r)) eqn:Es; simpl;
    destruct (py_in alias (deactivated_slaves r)) eqn:Ed; simpl;
    try (eexists; split; [reflexivity|]; simpl; by rewrite ?Ed, ?Es);
    apply py_in_true, py_remove_elem in Ed as [l El]; rewrite El;
    (eexists; split; [reflexivity|]; simpl; by rewrite ?Es).
Qed.

(** The swap, when the new master is one of the slaves. *)
Lemma promote_spec alias r :
  MASTER r <> alias -> alias ∈ SLAVES r ->
  exists r', promote alias r = Return r' /\
    cls r' = cls r /\ _master r' = _master r /\ MASTER r' = alias /\
    thread r' = thread r /\ checker_cls r' = checker_cls r /\
    deactivated_slaves r' = deactivated_slaves r /\
    NoDup (SLAVES r') /\
    (forall x, x ∈ SLAVES r' <-> x <> alias /\ (x ∈ SLAVES r \/ x = MASTER r)).
Proof.
  intros Hne Hin. unfold promote. rewrite decide_False by done. simpl.
  set (L := list_of_set (SLAVES r ++ [MASTER r])).
  assert (HL : forall x, x ∈ L <-> x ∈ SLAVES r \/ x = MASTER r).
  { intros x. unfold L. rewrite list_of_set_elem, elem_of_app, list_elem_of_singleton.
    done. }
  destruct (py_remove_elem alias L) as [l El]; [apply HL; by left|].
  rewrite El. eexists; split; [reflexivity|]. simpl.
  destruct (py_remove_NoDup alias L l (list_of_set_NoDup _) El) as [Hl Hal].
  repeat split; try done.
  - intros ->. done.
  - apply HL. by eapply py_remove_subseteq.
  - intros [Hx Hx']. eapply py_remove_other; [done..|]. by apply HL.
Qed.

Lemma promote_same alias r : MASTER r = alias -> promote alias r = Return r.
Proof. intros E. unfold promote. by rewrite decide_True. Qed.

(** Whatever the call and however it ends, [SLAVES] holds no alias twice
    afterwards if it did not before. *)
Lemma promote_NoDup alias r :
  NoDup (SLAVES r) -> NoDup (SLAVES (state_of (promote alias r))).
Proof.
  intros Hr. unfold promote. destruct (decide (MASTER r = alias)); [done|].
  simpl. destruct (py_remove alias _) as [l|] eqn:El; simpl.
  - by destruct (py_remove_NoDup _ _ _ (list_of_set_NoDup _) El).
  - apply list_of_set_NoDup.
Qed.

Lemma set_master_NoDup alias r :
  NoDup (SLAVES r) -> NoDup (SLAVES (state_of (set_master alias r))).
Proof.
  intros Hr. unfold set_master. destruct (cls r); [done|]. by apply promote_NoDup.
Qed.

Lemma deactivate_slave_NoDup alias r r' :
  NoDup (SLAVES r) -> deactivate_slave alias r = Return r' -> NoDup (SLAVES r').
Proof.
  intros Hr E. destruct (deactivate_slave_spec alias r) as (r1 & E1 & Hs).
  rewrite E1 in E. injection E as ->.
  destruct Hs as (_ & _ & _ & _ & _ & _ & Hs).
  destruct (py_in alias (SLAVES r)).
  - by destruct (py_remove_NoDup _ _ _ Hr Hs).
  - by rewrite Hs.
Qed.

Lemma activate_slave_NoDup alias r r' :
  NoDup (SLAVES r) -> activate_slave alias r = Return r' -> NoDup (SLAVES r').
Proof.
  intros Hr E. destruct (activate_slave_spec alias r) as (r1 & E1 & Hs).
  rewrite E1 in E. injection E as ->.
  destruct Hs as (_ & _ & _ & _ & _ & Hs & _). rewrite Hs.
  destruct (py_in alias (SLAVES r)) eqn:Es; [done|].
  apply py_in_false in Es. apply NoDup_app. repeat split; [done| |apply NoDup_singleton].
  intros x Hx ->%list_elem_of_singleton. done.
Qed.

Lemma exec_NoDup op r :
  NoDup (SLAVES r) -> NoDup (SLAVES (state_of (exec op r))).
Proof.
  intros Hr. destruct op as [a|a| | |a]; simpl.
  - destruct (deactivate_slave_spec a r) as (r' & E & _). rewrite E.
    by eapply deactivate_slave_NoDup.
  - destruct (activate_slave_spec a r) as (r' & E & _). rewrite E.
    by eapply activate_slave_NoDup.
  - unfold deactivate_master. destruct (truthy _); [|done]. by apply set_master_NoDup.
  - unfold activate_master. destruct (negb _); [|done]. by apply set_master_NoDup.
  - by apply set_master_NoDup.
Qed.

Lemma exec_all_NoDup ops r :
  NoDup (SLAVES r) -> NoDup (SLAVES (exec_all ops r)).
Proof.
  revert r. induction ops as [|op ops IH]; intros r Hr; [done|].
  simpl. apply IH. by apply exec_NoDup.
Qed.

End RegistryFacts.

(** ** Preservation of the invariants *)

Section Invariants.
Context `{SetOrder}.

Lemma init_registry_inv c cfg : NoDup cfg -> registry_inv (init c cfg).
Proof.
  intros Hcfg. repeat split; simpl; [done|apply NoDup_nil_2|].
  by intros a _ ?%elem_of_nil.
Qed.

Lemma init_promotion_inv cfg :
  NoDup cfg -> DEFAULT_DB_ALIAS ∉ cfg ->
  promotion_inv (init MasterFailoverReplicationRouter cfg).
Proof.
  intros Hcfg Hd. split; [done|]. split; [by apply init_registry_inv|].
  simpl. split; [done|]. by intros ?%elem_of_nil.
Qed.

Lemma deactivate_slave_inv alias r r' :
  registry_inv r -> deactivate_slave alias r = Return r' -> registry_inv r'.
Proof.
  intros (Hs & Hd & Hdisj) E.
  pose proof (deactivate_slave_NoDup _ _ _ Hs E) as Hs'.
  destruct (deactivate_slave_spec alias r) as (r1 & E1 & Hspec).
  rewrite E1 in E. injection E as ->.
  destruct Hspec as (_ & _ & _ & _ & _ & Hd' & Hs1).
  assert (Hsub : forall x, x ∈ SLAVES r' -> x ∈ SLAVES r /\ x <> alias).
  { intros x Hx. destruct (py_in alias (SLAVES r)) eqn:Es.
    - destruct (py_remove_NoDup _ _ _ Hs Hs1) as [_ Ha].
      split; [by eapply py_remove_subseteq|]. by intros ->.
    - rewrite Hs1 in Hx. split; [done|]. apply py_in_false in Es. by intros ->. }
  split; [done|]. unfold disjoint_slaves. rewrite Hd'.
  destruct (py_in alias (deactivated_slaves r)) eqn:Ed.
  - split; [done|]. intros x Hx Hx'. destruct (Hsub x Hx). by apply (Hdisj x).
  - apply py_in_false in Ed. split.
    + apply NoDup_app. repeat split; [done| |apply NoDup_singleton].
      by intros x Hx ->%list_elem_of_singleton.
    + intros x Hx Hx'. destruct (Hsub x Hx) as [Hx1 Hx2].
      apply elem_of_app in Hx' as [Hx'|Hx'%list_elem_of_singleton]; [|done].
      by apply (Hdisj x).
Qed.

Lemma activate_slave_inv alias r r' :
  registry_inv r -> activate_slave alias r = Return r' -> registry_inv r'.
Proof.
  intros (Hs & Hd & Hdisj) E.
  pose proof (activate_slave_NoDup _ _ _ Hs E) as Hs'.
  destruct (activate_slave_spec alias r) as (r1 & E1 & Hspec).
  rewrite E1 in E. injection E as ->.
  destruct Hspec as (_ & _ & _ & _ & _ & Hs1 & Hd1).
  assert (Hsub : forall x, x ∈ deactivated_slaves r' ->
                           x ∈ deactivated_slaves r /\ x <> alias).
  { intros x Hx. destruct (py_in alias (deactivated_slaves r)) eqn:Ed.
    - destruct (py_remove_NoDup _ _ _ Hd Hd1) as [_ Ha].
      split; [by eapply py_remove_subseteq|]. by intros ->.
    - rewrite Hd1 in Hx. split; [done|]. apply py_in_false in Ed. by intros ->. }
  split; [done|]. split.
  - destruct (py_in alias (deactivated_slaves r)) eqn:Ed.
    + by destruct (py_remove_NoDup _ _ _ Hd Hd1).
    + by rewrite Hd1.
  - intros x Hx Hx'. destruct (Hsub x Hx') as [Hx1 Hx2]. rewrite Hs1 in Hx.
    destruct (py_in alias (SLAVES r)); [by apply (Hdisj x)|].
    apply elem_of_app in Hx as [Hx|Hx%list_elem_of_singleton]; [|done].
    by apply (Hdisj x).
Qed.

(** On the base router the master is a field of its own: no call on it can
    raise, and the two lists stay as the slave operations left them. *)
Lemma exec_base_inv op r :
  cls r = FailoverReplicationRouter -> registry_inv r ->
  exists r', exec op r = Return r' /\
    cls r' = FailoverReplicationRouter /\ registry_inv r'.
Proof.
  intros Hc Hr. destruct op as [a|a| | |a]; simpl.
  - destruct (deactivate_slave_spec a r) as (r' & E & Hc' & _).
    exists r'. split; [done|]. split; [congruence|]. by eapply deactivate_slave_inv.
  - destruct (activate_slave_spec a r) as (r' & E & Hc' & _).
    exists r'. split; [done|]. split; [congruence|]. by eapply activate_slave_inv.
  - unfold deactivate_master, set_master. rewrite Hc.
    destruct (truthy _); eexists; (split; [reflexivity|]); done.
  - unfold activate_master, set_master. rewrite Hc.
    destruct (negb _); eexists; (split; [reflexivity|]); done.
  - unfold set_master. rewrite Hc. eexists; (split; [reflexivity|]); done.
Qed.

Lemma exec_all_base_inv ops r :
  cls r = FailoverReplicationRouter -> registry_inv r ->
  cls (exec_all ops r) = FailoverReplicationRouter /\ registry_inv (exec_all ops r).
Proof.
  revert r. induction ops as [|op ops IH]; intros r Hc Hr; [done|].
  simpl. destruct (exec_base_inv op r Hc Hr) as (r' & -> & Hc' & Hr').
  by apply IH.
Qed.

(** The three calls the promotion checker makes, each on an alias it has
    just read from the list it iterates. *)
Lemma deactivate_slave_promotion_inv alias r r' :
  promotion_inv r -> alias ∈ SLAVES r ->
  deactivate_slave alias r = Return r' -> promotion_inv r'.
Proof.
  intros (Hc & Hr & Hms & Hmd) Hin E.
  pose proof (deactivate_slave_inv _ _ _ Hr E) as Hr'.
  destruct (deactivate_slave_spec alias r) as (r1 & E1 & Hspec).
  rewrite E1 in E. injection E as ->.
  destruct Hspec as (Hc' & _ & Hm' & _ & _ & Hd' & Hs').
  split; [congruence|]. split; [done|]. rewrite Hm', Hd'.
  apply py_in_true in Hin. rewrite Hin in Hs'. split.
  - intros Hx. apply Hms. by eapply py_remove_subseteq.
  - destruct (py_in alias (deactivated_slaves r)); [done|].
    intros [?|Hx%list_elem_of_singleton]%elem_of_app; [done|].
    apply Hms. rewrite Hx. by apply py_in_true.
Qed.

Lemma activate_slave_promotion_inv alias r r' :
  promotion_inv r -> alias ∈ deactivated_slaves r ->
  activate_slave alias r = Return r' -> promotion_inv r'.
Proof.
  intros (Hc & Hr & Hms & Hmd) Hin E.
  pose proof (activate_slave_inv _ _ _ Hr E) as Hr'.
  destruct (activate_slave_spec alias r) as (r1 & E1 & Hspec).
  rewrite E1 in E. injection E as ->.
  destruct Hspec as (Hc' & _ & Hm' & _ & _ & Hs' & Hd').
  split; [congruence|]. split; [done|]. rewrite Hm', Hs'.
  apply py_in_true in Hin. rewrite Hin in Hd'. split.
  - destruct (py_in alias (SLAVES r)); [done|].
    intros [?|Hx%list_elem_of_singleton]%elem_of_app; [done|].
    apply Hmd. rewrite Hx. by apply py_in_true.
  - intros Hx. apply Hmd. by eapply py_remove_subseteq.
Qed.

Lemma promote_promotion_inv alias r :
  promotion_inv r -> alias ∈ SLAVES r ->
  exists r', set_master alias r = Return r' /\ promotion_inv r'.
Proof.
  intros (Hc & (Hs & Hd & Hdisj) & Hms & Hmd) Hin.
  unfold set_master. rewrite Hc.
  assert (Hne : MASTER r <> alias) by (by intros E; rewrite E in Hms).
  destruct (promote_spec alias r Hne Hin)
    as (r' & E & Hc' & _ & Hm' & _ & _ & Hd' & Hs' & Hel).
  exists r'. split; [done|]. split; [congruence|].
  unfold registry_inv, disjoint_slaves. rewrite Hm', Hd'.
  split; [split; [done|split; [done|]]|split].
  - intros x [Hx [Hx'| ->]]%Hel Hxd; [by apply (Hdisj x)|done].
  - intros [? _]%Hel. done.
  - intros Ha. by apply (Hdisj alias).
Qed.

End Invariants.

(** ** The loops of [check_slaves] *)

Section Loops.

(** Whatever [deactivate_slave] preserves on an alias of [SLAVES], the first
    loop preserves; and the loop never raises. *)
Lemma check_alive_preserves (P : router -> Prop) p :
  (forall a r r', P r -> a ∈ SLAVES r -> deactivate_slave a r = Return r' -> P r') ->
  forall fuel i r o, P r -> check_alive fuel i p r = Some o ->
  exists r', o = Return r' /\ P r'.
Proof.
  intros HP. induction fuel as [|fuel IH]; intros i r o Hr; simpl; [done|].
  destruct (SLAVES r !! i) as [a|] eqn:Ea.
  - destruct (negb (db_is_alive p a)).
    + destruct (deactivate_slave_spec a r) as (r1 & E1 & _). rewrite E1. simpl.
      apply IH. eapply HP; [done| |done]. by eapply list_elem_of_lookup_2.
    + by apply IH.
  - intros [= <-]. eauto.
Qed.

Lemma check_alive_again_preserves (P : router -> Prop) p :
  (forall a r r', P r -> a ∈ deactivated_slaves r ->
                  activate_slave a r = Return r' -> P r') ->
  forall fuel i r o, P r -> check_alive_again fuel i p r = Some o ->
  exists r', o = Return r' /\ P r'.
Proof.
  intros HP. induction fuel as [|fuel IH]; intros i r o Hr; simpl; [done|].
  destruct (deactivated_slaves r !! i) as [a|] eqn:Ea.
  - destruct (db_is_alive p a).
    + destruct (activate_slave_spec a r) as (r1 & E1 & _). rewrite E1. simpl.
      apply IH. eapply HP; [done| |done]. by eapply list_elem_of_lookup_2.
    + by apply IH.
  - intros [= <-]. eauto.
Qed.

(** The iterated list loses an element at each call and the index advances
    at each step: more steps than there are positions from [i] on are enough. *)
Lemma check_alive_total p fuel i r :
  length (SLAVES r) - i < fuel -> is_Some (check_alive fuel i p r).
Proof.
  revert i r. induction fuel as [|fuel IH]; intros i r Hlen; simpl; [lia|].
  destruct (SLAVES r !! i) as [a|] eqn:Ea; [|by eexists].
  pose proof (lookup_lt_Some _ _ _ Ea) as Hi.
  destruct (negb (db_is_alive p a)); [|apply IH; lia].
  destruct (deactivate_slave_spec a r) as (r1 & E1 & Hs). rewrite E1. simpl.
  apply IH. destruct Hs as (_ & _ & _ & _ & _ & _ & Hs).
  apply list_elem_of_lookup_2, py_in_true in Ea. rewrite Ea in Hs.
  apply py_remove_length in Hs. lia.
Qed.

Lemma check_alive_again_total p fuel i r :
  length (deactivated_slaves r) - i < fuel -> is_Some (check_alive_again fuel i p r).
Proof.
  revert i r. induction fuel as [|fuel IH]; intros i r Hlen; simpl; [lia|].
  destruct (deactivated_slaves r !! i) as [a|] eqn:Ea; [|by eexists].
  pose proof (lookup_lt_Some _ _ _ Ea) as Hi.
  destruct (db_is_alive p a); [|apply IH; lia].
  destruct (activate_slave_spec a r) as (r1 & E1 & Hs). rewrite E1. simpl.
  apply IH. destruct Hs as (_ & _ & _ & _ & _ & _ & Hs).
  apply list_elem_of_lookup_2, py_in_true in Ea. rewrite Ea in Hs.
  apply py_remove_length in Hs. lia.
Qed.

(** More fuel does not change a result. *)
Lemma check_alive_fuel p fuel fuel' i r o :
  check_alive fuel i p r = Some o -> fuel <= fuel' ->
  check_alive fuel' i p r = Some o.
Proof.
  revert fuel' i r. induction fuel as [|fuel IH]; intros fuel' i r; simpl; [done|].
  intros E Hle. destruct fuel' as [|fuel']; [lia|]. simpl.
  destruct (SLAVES r !! i) as [a|]; [|done].
  destruct (negb (db_is_alive p a)); [|apply IH; [done|lia]].
  destruct (deactivate_slave a r) as [r1|e r1]; simpl in *; [|done].
  apply IH; [done|lia].
Qed.

Lemma check_alive_again_fuel p fuel fuel' i r o :
  check_alive_again fuel i p r = Some o -> fuel <= fuel' ->
  check_alive_again fuel' i p r = Some o.
Proof.
  revert fuel' i r. induction fuel as [|fuel IH]; intros fuel' i r; simpl; [done|].
  intros E Hle. destruct fuel' as [|fuel']; [lia|]. simpl.
  destruct (deactivated_slaves r !! i) as [a|]; [|done].
  destruct (db_is_alive p a); [|apply IH; [done|lia]].
  destruct (activate_slave a r) as [r1|e r1]; simpl in *; [|done].
  apply IH; [done|lia].
Qed.

(** [check_slaves] always returns, and its two bounds cut nothing off: the
    loops give the same states with any larger bounds. *)
Lemma check_slaves_fuel p r :
  exists r1 r2,
    check_slaves p r = Some (Return r2) /\
    (forall fuel, length (SLAVES r) < fuel ->
       check_alive fuel 0 p r = Some (Return r1)) /\
    (forall fuel, length (deactivated_slaves r1) < fuel ->
       check_alive_again fuel 0 p r1 = Some (Return r2)).
Proof.
  unfold check_slaves.
  destruct (check_alive_total p (S (length (SLAVES r))) 0 r) as [o1 E1]; [lia|].
  destruct (check_alive_preserves (fun _ => True) p (fun _ _ _ _ _ _ => I) _ _ _ _ I E1)
    as (r1 & -> & _).
  destruct (check_alive_again_total p (S (length (deactivated_slaves r1))) 0 r1)
    as [o2 E2]; [lia|].
  destruct (check_alive_again_preserves (fun _ => True) p (fun _ _ _ _ _ _ => I) _ _ _ _ I E2)
    as (r2 & -> & _).
  exists r1, r2. rewrite E1. simpl. split; [done|]. split.
  - intros fuel Hf. destruct (check_alive_total p fuel 0 r) as [o E]; [lia|].
    destruct (Nat.le_ge_cases fuel (S (length (SLAVES r)))) as [Hle|Hle].
    + rewrite (check_alive_fuel _ _ _ _ _ _ E Hle) in E1. by injection E1 as ->.
    + by apply (check_alive_fuel _ _ _ _ _ _ E1 Hle).
  - intros fuel Hf. destruct (check_alive_again_total p fuel 0 r1) as [o E]; [lia|].
    destruct (Nat.le_ge_cases fuel (S (length (deactivated_slaves r1)))) as [Hle|Hle].
    + rewrite (check_alive_again_fuel _ _ _ _ _ _ E Hle) in E2. by injection E2 as ->.
    + by apply (check_alive_again_fuel _ _ _ _ _ _ E2 Hle).
Qed.

(** Any property kept by the two slave operations, on the aliases the loops
    pass to them, is kept by [check_slaves]. *)
Lemma check_slaves_preserves (P : router -> Prop) p r :
  (forall a r r', P r -> a ∈ SLAVES r -> deactivate_slave a r = Return r' -> P r') ->
  (forall a r r', P r -> a ∈ deactivated_slaves r ->
                  activate_slave a r = Return r' -> P r') ->
  P r -> exists r', check_slaves p r = Some (Return r') /\ P r'.
Proof.
  intros Hd Ha Hr. destruct (check_slaves_fuel p r) as (r1 & r2 & E & E1 & E2).
  exists r2. split; [done|].
  destruct (check_alive_preserves P p Hd _ _ _ _ Hr (E1 _ (Nat.lt_succ_diag_r _)))
    as (r1' & [= <-] & Hr1).
  destruct (check_alive_again_preserves P p Ha _ _ _ _ Hr1 (E2 _ (Nat.lt_succ_diag_r _)))
    as (r2' & [= <-] & Hr2).
  done.
Qed.

End Loops.

(** ** Ticks *)

Section Ticks.
Context `{SetOrder}.

Lemma FailoverThread_check_master_inv p r :
  cls r = FailoverReplicationRouter -> registry_inv r ->
  exists r', FailoverThread_check_master p r = Return r' /\
    cls r' = FailoverReplicationRouter /\ registry_inv r'.
Proof.
  intros Hc Hr. unfold FailoverThread_check_master.
  destruct (truthy (master r)).
  - destruct (negb _); [apply (exec_base_inv Deactivate_master); done|eauto].
  - destruct (db_is_alive _ _); [apply (exec_base_inv Activate_master); done|eauto].
Qed.

Lemma check_base_inv t p r :
  kind t = FailoverThread ->
  cls r = FailoverReplicationRouter -> registry_inv r ->
  exists r', check t p r = Some (Return r') /\
    cls r' = FailoverReplicationRouter /\ registry_inv r'.
Proof.
  intros Ht Hc Hr. unfold check.
  destruct (check_slaves_preserves
              (fun r => cls r = FailoverReplicationRouter /\ registry_inv r) p r)
    as (r1 & -> & Hc1 & Hr1); [| |done|].
  - intros a r0 r0' [Hc0 Hr0] _ E. split; [|by eapply deactivate_slave_inv].
    destruct (deactivate_slave_spec a r0) as (? & E' & Hc' & _). congruence.
  - intros a r0 r0' [Hc0 Hr0] _ E. split; [|by eapply activate_slave_inv].
    destruct (activate_slave_spec a r0) as (? & E' & Hc' & _). congruence.
  - simpl. destruct (do_check_master t); [|eauto].
    unfold check_master. rewrite Ht.
    destruct (FailoverThread_check_master_inv p r1 Hc1 Hr1) as (r2 & -> & ?). eauto.
Qed.

Lemma ticks_base_inv t ps r :
  kind t = FailoverThread ->
  cls r = FailoverReplicationRouter -> registry_inv r ->
  exists r', ticks t ps r = Some (Return r') /\
    cls r' = FailoverReplicationRouter /\ registry_inv r'.
Proof.
  intros Ht. revert r. induction ps as [|p ps IH]; intros r Hc Hr; simpl; [eauto|].
  destruct (check_base_inv t p r Ht Hc Hr) as (r1 & -> & Hc1 & Hr1). simpl.
  by apply IH.
Qed.

Lemma promote_first_inv p l r :
  (forall a, a ∈ l -> a ∈ SLAVES r) -> promotion_inv r ->
  exists r', promote_first p l r = Return r' /\ promotion_inv r'.
Proof.
  induction l as [|a l IH]; intros Hl Hr; simpl; [eauto|].
  destruct (negb (db_is_read_only p a)).
  - apply promote_promotion_inv; [done|]. apply Hl. by left.
  - apply IH; [|done]. intros x Hx. apply Hl. by right.
Qed.

Lemma check_promotion_inv t p r :
  kind t = MasterFailoverThread -> promotion_inv r ->
  exists r', check t p r = Some (Return r') /\ promotion_inv r'.
Proof.
  intros Ht Hr. unfold check.
  destruct (check_slaves_preserves promotion_inv p r) as (r1 & -> & Hr1); [| |done|].
  - intros a r0 r0' Hr0 Ha E. by eapply deactivate_slave_promotion_inv.
  - intros a r0 r0' Hr0 Ha E. by eapply activate_slave_promotion_inv.
  - simpl. destruct (do_check_master t); [|eauto].
    unfold check_master, MasterFailoverThread_check_master. rewrite Ht.
    pose proof Hr1 as [Hc1 _]. rewrite Hc1.
    destruct (db_is_read_only p (MASTER r1)); [|by eauto].
    destruct (promote_first_inv p (SLAVES r1) r1) as (r2 & -> & ?); eauto.
Qed.

Lemma ticks_promotion_inv t ps r :
  kind t = MasterFailoverThread -> promotion_inv r ->
  exists r', ticks t ps r = Some (Return r') /\ promotion_inv r'.
Proof.
  intros Ht. revert r. induction ps as [|p ps IH]; intros r Hr; simpl; [eauto|].
  destruct (check_promotion_inv t p r Ht Hr) as (r1 & -> & Hr1). simpl.
  by apply IH.
Qed.

Lemma checker_trace_inv r ops :
  promotion_inv r -> checker_trace r ops -> promotion_inv (exec_all ops r).
Proof.
  intros Hr Htr. induction Htr as [r|r op ops Hcall Htr IH]; [done|].
  simpl. apply IH. destruct Hcall as [a Ha|a Ha|a Ha]; simpl.
  - destruct (deactivate_slave_spec a r) as (r' & E & _). rewrite E.
    by eapply deactivate_slave_promotion_inv.
  - destruct (activate_slave_spec a r) as (r' & E & _). rewrite E.
    by eapply activate_slave_promotion_inv.
  - by destruct (promote_promotion_inv a r Hr Ha) as (r' & -> & ?).
Qed.

(** Each tick of the promotion checker is such a sequence of calls. *)
Lemma exec_all_app ops1 ops2 r :
  exec_all (ops1 ++ ops2) r = exec_all ops2 (exec_all ops1 r).
Proof. apply foldl_app. Qed.

Lemma checker_trace_app r ops1 ops2 :
  checker_trace r ops1 -> checker_trace (exec_all ops1 r) ops2 ->
  checker_trace r (ops1 ++ ops2).
Proof.
  induction 1 as [r|r op ops Hcall Htr IH]; intros H2; [done|].
  simpl. constructor; [done|]. by apply IH.
Qed.

Lemma check_alive_trace fuel i p r o :
  check_alive fuel i p r = Some o ->
  exists ops, checker_trace r ops /\ o = Return (exec_all ops r).
Proof.
  revert i r. induction fuel as [|fuel IH]; intros i r; simpl; [done|].
  destruct (SLAVES r !! i) as [a|] eqn:Ea.
  - destruct (negb (db_is_alive p a)); [|by apply IH].
    destruct (deactivate_slave_spec a r) as (r1 & E1 & _). rewrite E1. simpl.
    intros (ops & Htr & ->)%IH. exists (Deactivate_slave a :: ops). simpl.
    rewrite E1. split; [|done]. constructor.
    + constructor. by eapply list_elem_of_lookup_2.
    + simpl. by rewrite E1.
  - intros [= <-]. exists []. split; [constructor|done].
Qed.

Lemma check_alive_again_trace fuel i p r o :
  check_alive_again fuel i p r = Some o ->
  exists ops, checker_trace r ops /\ o = Return (exec_all ops r).
Proof.
  revert i r. induction fuel as [|fuel IH]; intros i r; simpl; [done|].
  destruct (deactivated_slaves r !! i) as [a|] eqn:Ea.
  - destruct (db_is_alive p a); [|by apply IH].
    destruct (activate_slave_spec a r) as (r1 & E1 & _). rewrite E1. simpl.
    intros (ops & Htr & ->)%IH. exists (Activate_slave a :: ops). simpl.
    rewrite E1. split; [|done]. constructor.
    + constructor. by eapply list_elem_of_lookup_2.
    + simpl. by rewrite E1.
  - intros [= <-]. exists []. split; [constructor|done].
Qed.

Lemma promote_first_trace p l r :
  (forall a, a ∈ l -> a ∈ SLAVES r) ->
  exists ops, checker_trace r ops /\
              state_of (promote_first p l r) = exec_all ops r.
Proof.
  induction l as [|a l IH]; intros Hl; simpl.
  - exists []. split; [constructor|done].
  - destruct (negb (db_is_read_only p a)).
    + exists [Set_master a]. split; [|done].
      constructor; [|constructor]. constructor. apply Hl. by left.
    + apply IH. intros x Hx. apply Hl. by right.
Qed.

Lemma check_promotion_trace t p r r' :
  kind t = MasterFailoverThread ->
  check t p r = Some (Return r') ->
  exists ops, checker_trace r ops /\ r' = exec_all ops r.
Proof.
  intros Ht. unfold check, check_slaves.
  destruct (check_alive _ 0 p r) as [o1|] eqn:E1; [|done].
  destruct (check_alive_trace _ _ _ _ _ E1) as (ops1 & Htr1 & ->). cbn [and_then].
  destruct (check_alive_again _ 0 p _) as [o2|] eqn:E2; [|done].
  destruct (check_alive_again_trace _ _ _ _ _ E2) as (ops2 & Htr2 & ->). cbn [and_then].
  rewrite <- exec_all_app in *.
  pose proof (checker_trace_app _ _ _ Htr1 Htr2) as Htr.
  destruct (do_check_master t).
  - unfold check_master, MasterFailoverThread_check_master. rewrite Ht.
    destruct (cls (exec_all (ops1 ++ ops2) r)); [done|].
    destruct (db_is_read_only p _).
    + destruct (promote_first_trace p (SLAVES (exec_all (ops1 ++ ops2) r))
                  (exec_all (ops1 ++ ops2) r)) as (ops3 & Htr3 & E3); [done|].
      intros [= E]. rewrite E in E3. simpl in E3.
      exists ((ops1 ++ ops2) ++ ops3). rewrite exec_all_app.
      split; [by apply checker_trace_app|done].
    + intros [= <-]. eauto.
  - intros [= <-]. eauto.
Qed.

End Ticks.

(** ** The scenarios of the test suite *)

(** [test_thread_cycle] *)
Example test_thread_cycle :
  exists r1 r2 r3,
    check (test_thread FailoverThread false) (only slave1 slave1)
      (this (new_router FailoverReplicationRouter two_slaves None None))
    = Some (Return r1) /\
    registry r1 = (DEFAULT_DB_ALIAS, [slave1], [slave2]) /\
    check (test_thread FailoverThread false) (only slave2 slave2) r1
    = Some (Return r2) /\
    registry r2 = (DEFAULT_DB_ALIAS, [slave2], [slave1]) /\
    check (test_thread FailoverThread false) all_alive r2 = Some (Return r3) /\
    registry r3 = (DEFAULT_DB_ALIAS, [slave2; slave1], []).
Proof. do 3 eexists. repeat split; vm_compute; reflexivity. Qed.

(** [test_thread_cycle_with_master_check] *)
Example test_thread_cycle_with_master_check :
  exists r1 r2 r3,
    check (test_thread FailoverThread true) (only slave1 slave1)
      (this (new_router FailoverReplicationRouter two_slaves None None))
    = Some (Return r1) /\
    master r1 = PyNone /\ SLAVES r1 = [slave1] /\
    check (test_thread FailoverThread true) (only slave2 slave2) r1
    = Some (Return r2) /\
    master r2 = PyNone /\ SLAVES r2 = [slave2] /\
    check (test_thread FailoverThread true) (only DEFAULT_DB_ALIAS slave1) r2
    = Some (Return r3) /\
    master r3 = DEFAULT_DB_ALIAS /\ SLAVES r3 = [].
Proof. do 3 eexists. repeat split; vm_compute; reflexivity. Qed.

(** [test_thread_with_master_choose_cycle], up to its first assertions. *)
Example test_thread_with_master_choose_cycle :
  exists r2,
    ticks (test_thread MasterFailoverThread true)
      [only slave1 slave1; only slave1 slave1]
      (this (new_router MasterFailoverReplicationRouter two_slaves (Some false) None))
    = Some (Return r2) /\
    SLAVES r2 = [] /\ master r2 = slave1.
Proof. eexists. repeat split; vm_compute; reflexivity. Qed.

(** * The claims *)

(** ** C1: [SLAVES] and [deactivated_slaves] stay disjoint *)

(** C1, as stated, fails on two configurations.  With a slave list that
    names [slave1] twice, one tick in which [slave1] does not answer leaves
    [slave1] in both lists.  With the default alias among the slaves of a
    promotion router, one tick in which no database answers and only
    [slave1] is writable deactivates the default alias and then folds it
    back into [SLAVES] as the previous master. *)
Lemma slaves_overlap_after_tick :
  (exists r',
     check (liveness_checker false) all_dead
       (init FailoverReplicationRouter [slave1; slave1]) = Some (Return r') /\
     ~ disjoint_slaves r') /\
  (forall so : SetOrder, exists r',
     check promotion_checker all_dead
       (init MasterFailoverReplicationRouter [DEFAULT_DB_ALIAS; slave1])
     = Some (Return r') /\
     ~ disjoint_slaves r').
Proof.
  split.
  - eexists. split; [vm_compute; reflexivity|].
    intros Hd. apply (Hd slave1); simpl; by left.
  - intros so.
    set (r1 := Router MasterFailoverReplicationRouter [slave1] DEFAULT_DB_ALIAS
                 [DEFAULT_DB_ALIAS] DEFAULT_DB_ALIAS None MasterFailoverThread).
    assert (E1 : check_slaves all_dead
                   (init MasterFailoverReplicationRouter [DEFAULT_DB_ALIAS; slave1])
                 = Some (Return r1)) by (vm_compute; reflexivity).
    destruct (promote_spec slave1 r1) as (r' & E & _ & _ & _ & _ & _ & Hd & _ & Hel);
      [done|simpl; by left|].
    exists r'. split.
    + unfold check. rewrite E1.
      change (Some (promote slave1 r1) = Some (Return r')). by rewrite E.
    + intros Hdis. apply (Hdis DEFAULT_DB_ALIAS).
      * apply Hel. split; [done|]. by right.
      * rewrite Hd. simpl. by left.
Qed.

(** C1, amended.  From a configured slave list [cfg] that names no alias
    twice: on the base router the two lists are disjoint after any sequence
    of registry operations, with any aliases, and after any number of ticks
    of a [FailoverThread], whatever the probes answer in each tick; on the
    promotion router, when [cfg] does not name the default alias either,
    they are disjoint after any sequence of calls the promotion checker
    makes and after any number of its ticks, whatever the probes answer in
    each tick. *)
Theorem slaves_stay_disjoint `{SetOrder} (cfg : list pyval) (Hcfg : NoDup cfg) :
  (forall ops,
     disjoint_slaves (exec_all ops (init FailoverReplicationRouter cfg))) /\
  (forall t ps, kind t = FailoverThread ->
     exists r', ticks t ps (init FailoverReplicationRouter cfg) = Some (Return r') /\
                disjoint_slaves r') /\
  (DEFAULT_DB_ALIAS ∉ cfg ->
     (forall ops,
        checker_trace (init MasterFailoverReplicationRouter cfg) ops ->
        disjoint_slaves (exec_all ops (init MasterFailoverReplicationRouter cfg))) /\
     (forall t ps, kind t = MasterFailoverThread ->
        exists r', ticks t ps (init MasterFailoverReplicationRouter cfg)
                   = Some (Return r') /\
                   disjoint_slaves r')).
Proof.
  pose proof (init_registry_inv FailoverReplicationRouter cfg Hcfg) as Hbase.
  split; [|split].
  - intros ops.
    by destruct (exec_all_base_inv ops (init FailoverReplicationRouter cfg)
                   eq_refl Hbase) as (_ & _ & _ & ?).
  - intros t ps Ht.
    destruct (ticks_base_inv t ps (init FailoverReplicationRouter cfg)
                Ht eq_refl Hbase) as (r' & E & _ & _ & _ & ?).
    eauto.
  - intros Hd. pose proof (init_promotion_inv cfg Hcfg Hd) as Hprom. split.
    + intros ops Htr.
      by destruct (checker_trace_inv _ ops Hprom Htr) as (_ & (_ & _ & ?) & _).
    + intros t ps Ht.
      destruct (ticks_promotion_inv t ps _ Ht Hprom) as (r' & E & _ & (_ & _ & ?) & _).
      eauto.
Qed.

Lemma slaves_stay_disjoint_witness :
  NoDup [slave1; slave2] /\
  exists r', ticks promotion_checker [all_dead; all_alive]
               (init MasterFailoverReplicationRouter [slave1; slave2])
             = Some (Return r') /\
             disjoint_slaves r'.
Proof.
  assert (Hcfg : NoDup [slave1; slave2]) by (apply (bool_decide_unpack _); vm_compute; exact I).
  split; [exact Hcfg|].
  refine (proj2 (proj2 (proj2 (slaves_stay_disjoint [slave1; slave2] Hcfg)) _)
            promotion_checker [all_dead; all_alive] eq_refl).
  apply (bool_decide_unpack _). vm_compute. exact I.
Defined.

(** ** C2, C3: [db_for_write] and [db_for_read] *)

(** C2.  When the master is [None] and the base policy chooses the default
    alias, [db_for_write] and [db_for_read] return [None]. *)
Theorem db_unavailable_without_master (r : router) (base : pyval) :
  master r = PyNone -> base = DEFAULT_DB_ALIAS ->
  db_for_write base r = PyNone /\ db_for_read base r = PyNone.
Proof.
  intros Hm Hb. unfold db_for_write, db_for_read.
  rewrite !bool_decide_eq_true_2 by done. done.
Qed.

Lemma db_unavailable_without_master_witness :
  master (state_of (deactivate_master (init FailoverReplicationRouter [slave1])))
  = PyNone /\
  db_for_write DEFAULT_DB_ALIAS
    (state_of (deactivate_master (init FailoverReplicationRouter [slave1]))) = PyNone /\
  db_for_read DEFAULT_DB_ALIAS
    (state_of (deactivate_master (init FailoverReplicationRouter [slave1]))) = PyNone.
Proof.
  split; [reflexivity|].
  apply db_unavailable_without_master; reflexivity.
Defined.

(** C3 fails on the code.  With the master set and the base policy choosing
    [slave1], both methods return [None] and not [slave1]: the methods have
    no [return] for the case in which the base choice stands. *)
Theorem db_for_read_drops_base_choice :
  master (init FailoverReplicationRouter [slave1; slave2]) = DEFAULT_DB_ALIAS /\
  db_for_read slave1 (init FailoverReplicationRouter [slave1; slave2]) = PyNone /\
  db_for_write slave1 (init FailoverReplicationRouter [slave1; slave2]) = PyNone.
Proof. repeat split; done. Qed.

(** ** C4: one tick of [check_slaves] *)

(** C4 fails on the code.  With [slave1] and [slave2] active and neither
    answering, the tick returns with [slave2] still active: removing
    [slave1] moves [slave2] to the position the iterator has just left, so
    [slave2] is never probed.  The second loop skips in the same way: after
    two such ticks both slaves are deactivated, and a tick in which both
    answer reactivates [slave1] only. *)
Theorem check_slaves_skips_after_removal :
  (exists r',
     check (liveness_checker false) all_dead
       (init FailoverReplicationRouter [slave1; slave2]) = Some (Return r') /\
     SLAVES r' = [slave2] /\ deactivated_slaves r' = [slave1] /\
     db_is_alive all_dead slave2 = false) /\
  (exists r',
     ticks (liveness_checker false) [all_dead; all_dead; all_alive]
       (init FailoverReplicationRouter [slave1; slave2]) = Some (Return r') /\
     SLAVES r' = [slave1] /\ deactivated_slaves r' = [slave2] /\
     db_is_alive all_alive slave2 = true).
Proof.
  split; (eexists; split; [vm_compute; reflexivity|]); repeat split.
Qed.

(** ** C5: calling [deactivate_slave] twice *)

(** C5, as stated, fails in the initial state of a router configured with
    the slaves [slave1, slave1]: the first call leaves one [slave1] active,
    the second removes it. *)
Lemma deactivate_slave_twice_differs :
  let r := init FailoverReplicationRouter [slave1; slave1] in
  (do r1 <- deactivate_slave slave1 r; deactivate_slave slave1 r1)
  <> deactivate_slave slave1 r.
Proof. vm_compute. discriminate. Qed.

Lemma deactivate_slave_fixed alias r :
  alias ∈ deactivated_slaves r -> alias ∉ SLAVES r ->
  deactivate_slave alias r = Return r.
Proof.
  intros Hd%py_in_true Hs%py_in_false. unfold deactivate_slave.
  rewrite Hd. simpl. by rewrite Hs.
Qed.

Lemma deactivate_slave_twice_NoDup alias r :
  NoDup (SLAVES r) ->
  (do r1 <- deactivate_slave alias r; deactivate_slave alias r1)
  = deactivate_slave alias r.
Proof.
  intros Hr. destruct (deactivate_slave_spec alias r)
    as (r1 & E & _ & _ & _ & _ & _ & Hd & Hs).
  rewrite E. simpl. apply deactivate_slave_fixed.
  - rewrite Hd. destruct (py_in alias (deactivated_slaves r)) eqn:Ed.
    + by apply py_in_true.
    + apply elem_of_app. right. by left.
  - destruct (py_in alias (SLAVES r)) eqn:Es.
    + by destruct (py_remove_NoDup _ _ _ Hr Hs).
    + rewrite Hs. by apply py_in_false.
Qed.

(** C5, amended.  In every state reached, by any sequence of registry
    operations on either router class, from a configured slave list that
    names no alias twice, calling [deactivate_slave] twice in a row ends as
    calling it once does. *)
Theorem deactivate_slave_idempotent `{SetOrder}
    (c : router_cls) (cfg : list pyval) (ops : list reg_op) (alias : pyval) :
  NoDup cfg ->
  let r := exec_all ops (init c cfg) in
  (do r1 <- deactivate_slave alias r; deactivate_slave alias r1)
  = deactivate_slave alias r.
Proof.
  intros Hcfg r. apply deactivate_slave_twice_NoDup.
  by apply exec_all_NoDup.
Qed.

Lemma deactivate_slave_idempotent_witness :
  NoDup [slave1; slave2] /\
  let r := exec_all [Activate_slave slave3; Set_master slave1; Deactivate_slave slave2]
             (init MasterFailoverReplicationRouter [slave1; slave2]) in
  (do r1 <- deactivate_slave slave3 r; deactivate_slave slave3 r1)
  = deactivate_slave slave3 r.
Proof.
  assert (Hcfg : NoDup [slave1; slave2]) by (apply (bool_decide_unpack _); vm_compute; exact I).
  split; [exact Hcfg|].
  exact (deactivate_slave_idempotent MasterFailoverReplicationRouter [slave1; slave2]
           [Activate_slave slave3; Set_master slave1; Deactivate_slave slave2]
           slave3 Hcfg).
Defined.

(** ** C6: calls that raise *)

(** C6 fails on the code.  On a promotion router with the slaves [slave1]
    and [slave2], setting the master to [slave3] raises ValueError, and so
    does [deactivate_master], which sets the master to [None]: the setter
    removes the new master from [SLAVES] without asking whether it is
    there.  Both leave the master changed.  This holds for every order in
    which [list(set(...))] lists the slaves. *)
Theorem promotion_setter_raises `{SetOrder} :
  (exists r', set_master slave3 (init MasterFailoverReplicationRouter [slave1; slave2])
              = Raise ValueError r' /\ MASTER r' = slave3) /\
  (exists r', deactivate_master (init MasterFailoverReplicationRouter [slave1; slave2])
              = Raise ValueError r' /\ MASTER r' = PyNone).
Proof.
  assert (Hraise : forall alias, alias ∉ [slave1; slave2; DEFAULT_DB_ALIAS] ->
    exists r', promote alias (init MasterFailoverReplicationRouter [slave1; slave2])
               = Raise ValueError r' /\ MASTER r' = alias).
  { intros alias Ha. unfold promote. simpl.
    rewrite decide_False by (intros <-; apply Ha; repeat constructor).
    rewrite py_remove_not_elem; [eauto|].
    by rewrite list_of_set_elem. }
  split.
  - apply Hraise. apply (bool_decide_unpack _). vm_compute. exact I.
  - apply Hraise. apply (bool_decide_unpack _). vm_compute. exact I.
Qed.

(** ** C7, C8: promotion *)

(** C7, as stated, fails after a promotion: the scan does not follow
    insertion order then.  With the slaves [slave1], [slave2] configured and
    every database answering, a first tick promotes [slave1] and folds the
    default alias into [SLAVES], which the swap rebuilds by [list(set(...))].
    In the next tick [slave1] is read-only and both [slave2] and the default
    alias are writable.  When the set lists the default alias before
    [slave2], the checker promotes the default alias, although [slave2]
    entered [SLAVES] before it; when it lists them the other way round, the
    checker promotes [slave2].  Both orders are orders of the same set. *)
Lemma promotion_scan_not_insertion_order :
  (exists r1 r2,
     @check reversed_order promotion_checker slave1_writable
       (init MasterFailoverReplicationRouter [slave1; slave2]) = Some (Return r1) /\
     master r1 = slave1 /\
     SLAVES r1 = [DEFAULT_DB_ALIAS; slave2] /\
     db_is_read_only slave1_read_only (master r1) = true /\
     db_is_read_only slave1_read_only slave2 = false /\
     @check reversed_order promotion_checker slave1_read_only r1 = Some (Return r2) /\
     master r2 = DEFAULT_DB_ALIAS) /\
  (exists r1 r2,
     @check remove_dups_order promotion_checker slave1_writable
       (init MasterFailoverReplicationRouter [slave1; slave2]) = Some (Return r1) /\
     master r1 = slave1 /\
     SLAVES r1 = [slave2; DEFAULT_DB_ALIAS] /\
     @check remove_dups_order promotion_checker slave1_read_only r1 = Some (Return r2) /\
     master r2 = slave2).
Proof.
  split; do 2 eexists; repeat split; vm_compute; reflexivity.
Qed.

(** C7, amended.  On a promotion router whose master is read-only, when
    [alias] is the first writable entry of [SLAVES] in the order the list
    has when it is scanned (insertion order until a promotion, the order of
    a set after one), [check_master] returns with [alias] as the master and
    absent from [SLAVES], the previous master exactly once in [SLAVES], no
    other change to the membership of [SLAVES], and [deactivated_slaves]
    untouched. *)
Theorem check_master_promotes_first_writable `{SetOrder}
    (p : probes) (r : router) (l1 l2 : list pyval) (alias : pyval) :
  cls r = MasterFailoverReplicationRouter ->
  db_is_read_only p (MASTER r) = true ->
  SLAVES r = l1 ++ alias :: l2 ->
  (forall x, x ∈ l1 -> db_is_read_only p x = true) ->
  db_is_read_only p alias = false ->
  exists r',
    MasterFailoverThread_check_master p r = Return r' /\
    master r' = alias /\
    (alias ∉ SLAVES r') /\
    MASTER r <> alias /\
    occurrences (MASTER r) (SLAVES r') = 1 /\
    (forall x, x ∈ SLAVES r' <-> x <> alias /\ (x ∈ SLAVES r \/ x = MASTER r)) /\
    deactivated_slaves r' = deactivated_slaves r.
Proof.
  intros Hc Hro Hs Hl1 Hw.
  assert (Hne : MASTER r <> alias) by (intros E; congruence).
  assert (Hin : alias ∈ SLAVES r) by (rewrite Hs; apply elem_of_app; right; left).
  destruct (promote_spec alias r Hne Hin)
    as (r' & E & Hc' & _ & Hm' & _ & _ & Hd' & Hnd & Hel).
  exists r'. split.
  - unfold MasterFailoverThread_check_master. rewrite Hc, Hro, Hs.
    clear Hs Hin. induction l1 as [|x l1 IH]; simpl.
    + rewrite Hw. simpl. unfold set_master. by rewrite Hc.
    + rewrite (Hl1 x) by (by left). simpl. apply IH.
      intros y Hy. apply Hl1. by right.
  - unfold master. rewrite Hc', Hc.
    split; [done|]. split; [|split; [done|split; [|done]]].
    + intros [? _]%Hel. done.
    + apply occurrences_NoDup; [done|]. apply Hel. split; [done|]. by right.
Qed.

Lemma check_master_promotes_first_writable_witness :
  exists r',
    MasterFailoverThread_check_master all_dead
      (init MasterFailoverReplicationRouter [slave2; slave1; slave3]) = Return r' /\
    master r' = slave1 /\
    (slave1 ∉ SLAVES r') /\
    DEFAULT_DB_ALIAS <> slave1 /\
    occurrences DEFAULT_DB_ALIAS (SLAVES r') = 1 /\
    (forall x, x ∈ SLAVES r' <->
               x <> slave1 /\ (x ∈ [slave2; slave1; slave3] \/ x = DEFAULT_DB_ALIAS)) /\
    deactivated_slaves r' = [].
Proof.
  apply (check_master_promotes_first_writable all_dead
           (init MasterFailoverReplicationRouter [slave2; slave1; slave3])
           [slave2] [slave3] slave1); try reflexivity.
  intros x ->%list_elem_of_singleton. reflexivity.
Defined.

(** C8.  On a promotion router, setting the master to the alias that is
    the master already returns normally and changes nothing. *)
Theorem promote_current_master_noop `{SetOrder} (r : router) (alias : pyval) :
  cls r = MasterFailoverReplicationRouter ->
  master r = alias ->
  set_master alias r = Return r.
Proof.
  intros Hc Hm. unfold master in Hm. unfold set_master. rewrite Hc in *.
  by apply promote_same.
Qed.

Lemma promote_current_master_noop_witness :
  master (init MasterFailoverReplicationRouter [slave1; slave2]) = DEFAULT_DB_ALIAS /\
  set_master DEFAULT_DB_ALIAS (init MasterFailoverReplicationRouter [slave1; slave2])
  = Return (init MasterFailoverReplicationRouter [slave1; slave2]).
Proof.
  split; [reflexivity|].
  apply promote_current_master_noop; reflexivity.
Defined.

(** ** C9: starting and stopping the checker *)

(** C9, as stated, fails for [start] and for [stop].  A router built
    without a thread and started once has one running checker, started twice
    it has two, the first of them no longer referred to by the router.  And
    once the checker of a started router has ended, [stop] raises TypeError
    instead of returning, the first time and again on a stopped checker. *)
Lemma start_thread_twice_two_checkers :
  running_checkers
    (start_thread false two_slaves
       (new_router FailoverReplicationRouter two_slaves (Some false) None)) = 1 /\
  running_checkers
    (start_thread false two_slaves
       (start_thread false two_slaves
          (new_router FailoverReplicationRouter two_slaves (Some false) None))) = 2 /\
  start_thread false two_slaves
    (start_thread false two_slaves
       (new_router FailoverReplicationRouter two_slaves (Some false) None))
  <> start_thread false two_slaves
       (new_router FailoverReplicationRouter two_slaves (Some false) None) /\
  (exists pr',
     stop_thread true
       (new_router FailoverReplicationRouter two_slaves (Some true) None)
     = Raise TypeError pr' /\
     stop_thread true pr' = Raise TypeError pr').
Proof.
  split; [vm_compute; reflexivity|].
  split; [vm_compute; reflexivity|].
  split; [vm_compute; discriminate|].
  eexists. split; vm_compute; reflexivity.
Qed.

(** Stopping sets the stop event of the router's thread; a second call
    finds it set. *)
Lemma stop_thread_state_again ended ended' pr :
  state_of (stop_thread ended' (state_of (stop_thread ended pr)))
  = state_of (stop_thread ended pr).
Proof.
  destruct (thread (this pr)) as [ref|] eqn:Eref.
  2: { unfold stop_thread. rewrite Eref. simpl. by rewrite Eref. }
  destruct (threads pr !! ref) as [t|] eqn:Et.
  2: { unfold stop_thread. rewrite Eref, Et. simpl. by rewrite Eref, Et. }
  destruct (check_interval t) as [i|] eqn:Ei.
  2: { unfold stop_thread. rewrite Eref, Et. simpl. rewrite Ei. simpl.
       rewrite Eref, Et. simpl. by rewrite Ei. }
  assert (E1 : state_of (stop_thread ended pr)
               = Process (alter (set__stop true) ref (threads pr)) (this pr)).
  { unfold stop_thread. rewrite Eref, Et. simpl. rewrite Ei. unfold join. simpl.
    rewrite list_lookup_alter_eq, Et. simpl.
    destruct (started t); [by destruct ended|done]. }
  rewrite E1. unfold stop_thread. simpl.
  rewrite Eref, list_lookup_alter_eq, Et. simpl. rewrite Ei. unfold join. simpl.
  rewrite list_alter_alter_eq, list_lookup_alter_eq, Et. simpl.
  destruct (started t); [by destruct ended'|done].
Qed.

Lemma stop_thread_again pr pr1 ended :
  stop_thread ended pr = Return pr1 -> stop_thread false pr1 = Return pr1.
Proof.
  unfold stop_thread.
  destruct (thread (this pr)) as [ref|] eqn:Eref; [|intros [= <-]; by rewrite Eref].
  destruct (threads pr !! ref) as [t|] eqn:Et; simpl;
    [|intros [= <-]; by rewrite Eref, Et].
  destruct (check_interval t) as [i|] eqn:Ei; [|done].
  unfold join. simpl. rewrite list_lookup_alter_eq, Et. simpl.
  destruct (started t) eqn:Est; [|done]. destruct ended; [done|].
  intros [= <-]. simpl. rewrite Eref, list_lookup_alter_eq, Et. simpl.
  rewrite Ei. rewrite list_alter_alter_eq, list_lookup_alter_eq, Et. simpl.
  by rewrite Est.
Qed.

Lemma stop_thread_registry ended pr :
  this (state_of (stop_thread ended pr)) = this pr.
Proof.
  unfold stop_thread. destruct (thread (this pr)) as [ref|]; [|done].
  destruct (threads pr !! ref) as [t|]; simpl; [|done].
  destruct (check_interval t); [|done]. unfold join. simpl.
  destruct (_ !! ref) as [t'|]; [|done].
  destruct (started t'); [by destruct ended|done].
Qed.

Lemma _start_thread_spec c i m pr :
  _start_thread c i m pr =
  Process (threads pr ++ [Checker (default (checker_cls (this pr)) c) i m false true])
          (set_thread (Some (length (threads pr))) (this pr)).
Proof.
  unfold _start_thread. simpl. f_equal.
  rewrite alter_app_r_alt by done. by rewrite Nat.sub_diag.
Qed.

Lemma running_checkers_app ts t r :
  running_checkers (Process (ts ++ [t]) r)
  = running_checkers (Process ts r) + (if running t then 1 else 0).
Proof.
  unfold running_checkers. simpl. rewrite filter_app, length_app. f_equal.
  rewrite (filter_singleton (fun t => running t = true) t []).
  destruct (running t); by case_decide.
Qed.

(** The state a stop leaves after a start whose guard holds: the new
    checker with its stop event set, after the threads there were. *)
Lemma stop_after_start_state force s pr ended :
  force || negb (bool_decide (SLAVES (this pr) = []))
    || getattr (DATABASE_CHECK_MASTER s) false = true ->
  exists t,
    start_thread force s pr
    = Process (threads pr ++ [t]) (set_thread (Some (length (threads pr))) (this pr)) /\
    running t = true /\
    stop_thread ended (start_thread force s pr)
    = (if ended then Raise TypeError else Return)
        (Process (threads pr ++ [set__stop true t])
                 (set_thread (Some (length (threads pr))) (this pr))).
Proof.
  intros Hg. unfold start_thread. rewrite Hg, _start_thread_spec.
  eexists. split; [reflexivity|]. split; [done|].
  unfold stop_thread. simpl. rewrite list_lookup_middle by done. simpl.
  unfold join. simpl. rewrite alter_app_r_alt by done. rewrite Nat.sub_diag. simpl.
  rewrite list_lookup_middle by done. simpl. by destruct ended.
Qed.

(** C9, amended.  [stop] on a router that never started a thread returns
    with nothing changed.  On any router, however the call ends, [stop]
    changes nothing but the stop event of the router's thread, which it sets:
    the registry contents are as before, and a second [stop] leaves the
    state exactly as the first left it; when the thread has not ended by the
    end of the wait, [stop] returns normally, also when repeated.  [start] is
    not idempotent: every call whose guard holds ([force], a non-empty slave
    list or master checking) creates and starts one more checker and makes
    it the router's thread, leaving the registry contents alone; a [stop]
    after it sets the stop event of that checker only. *)
Theorem stop_idempotent_start_adds_checker
    (pr : process) (s : settings) (force ended ended' : bool) :
  (thread (this pr) = None -> stop_thread ended pr = Return pr) /\
  state_of (stop_thread ended' (state_of (stop_thread ended pr)))
  = state_of (stop_thread ended pr) /\
  (forall pr1, stop_thread ended pr = Return pr1 -> stop_thread false pr1 = Return pr1) /\
  this (state_of (stop_thread ended pr)) = this pr /\
  registry (this (start_thread force s pr)) = registry (this pr) /\
  (force || negb (bool_decide (SLAVES (this pr) = []))
     || getattr (DATABASE_CHECK_MASTER s) false = true ->
   running_checkers (start_thread force s pr) = S (running_checkers pr) /\
   thread (this (start_thread force s pr)) = Some (length (threads pr)) /\
   running_checkers (state_of (stop_thread ended (start_thread force s pr)))
   = running_checkers pr /\
   exists pr2, stop_thread false (start_thread force s pr) = Return pr2).
Proof.
  split; [|split; [|split; [|split; [|split]]]].
  - intros E. unfold stop_thread. by rewrite E.
  - apply stop_thread_state_again.
  - intros pr1. apply stop_thread_again.
  - apply stop_thread_registry.
  - unfold start_thread. destruct (_ || _); [|done]. by rewrite _start_thread_spec.
  - intros Hg.
    destruct (stop_after_start_state force s pr ended Hg) as (t & E & Hr & Estop).
    destruct (stop_after_start_state force s pr false Hg) as (t' & _ & _ & Estop').
    split; [|split; [by rewrite E|split; [|by eauto]]].
    + rewrite E, running_checkers_app, Hr. unfold running_checkers. simpl. lia.
    + rewrite Estop.
      assert (Hst : state_of ((if ended then Raise TypeError else Return)
                      (Process (threads pr ++ [set__stop true t])
                         (set_thread (Some (length (threads pr))) (this pr))))
                    = Process (threads pr ++ [set__stop true t])
                        (set_thread (Some (length (threads pr))) (this pr)))
        by (by destruct ended).
      rewrite Hst, running_checkers_app. unfold running. simpl.
      rewrite andb_false_r. unfold running_checkers. simpl. lia.
Qed.

Lemma stop_idempotent_start_adds_checker_witness :
  thread (this (new_router FailoverReplicationRouter two_slaves (Some false) None))
  = None /\
  stop_thread true (new_router FailoverReplicationRouter two_slaves (Some false) None)
  = Return (new_router FailoverReplicationRouter two_slaves (Some false) None) /\
  running_checkers
    (start_thread false two_slaves
       (new_router FailoverReplicationRouter two_slaves (Some true) None)) = 2.
Proof.
  pose proof (stop_idempotent_start_adds_checker
                (new_router FailoverReplicationRouter two_slaves (Some false) None)
                two_slaves false true true) as (Hstop & _).
  pose proof (stop_idempotent_start_adds_checker
                (new_router FailoverReplicationRouter two_slaves (Some true) None)
                two_slaves false true true) as (_ & _ & _ & _ & _ & Hstart).
  split; [reflexivity|]. split; [apply Hstop; reflexivity|].
  destruct (Hstart eq_refl) as (-> & _). reflexivity.
Defined.

(** ** C10: deactivating an alias that was never configured *)

Lemma FailoverThread_check_master_frame `{SetOrder} p r :
  cls r = FailoverReplicationRouter ->
  exists r', FailoverThread_check_master p r = Return r' /\
    SLAVES r' = SLAVES r /\ deactivated_slaves r' = deactivated_slaves r.
Proof.
  intros Hc.
  unfold FailoverThread_check_master, deactivate_master, activate_master, set_master.
  rewrite Hc. destruct (truthy (master r)); simpl.
  - destruct (negb _); eauto.
  - destruct (db_is_alive _ _); eauto.
Qed.

(** C10.  Whatever the alias and the state, [deactivate_slave] returns with
    the alias in [deactivated_slaves].  In particular an alias that the
    configured slave list does not name is then deactivated, and if it
    answers the probe, the next tick of a [FailoverThread] makes it an
    active slave. *)
Theorem deactivate_slave_accepts_any_alias `{SetOrder} (alias : pyval) :
  (forall r, exists r',
     deactivate_slave alias r = Return r' /\ alias ∈ deactivated_slaves r') /\
  (forall cfg t p,
     alias ∉ cfg -> kind t = FailoverThread -> db_is_alive p alias = true ->
     exists r1 r2,
       deactivate_slave alias (init FailoverReplicationRouter cfg) = Return r1 /\
       alias ∈ deactivated_slaves r1 /\
       check t p r1 = Some (Return r2) /\
       alias ∈ SLAVES r2).
Proof.
  split.
  - intros r. destruct (deactivate_slave_spec alias r)
      as (r' & E & _ & _ & _ & _ & _ & Hd & _).
    exists r'. split; [done|]. rewrite Hd.
    destruct (py_in alias (deactivated_slaves r)) eqn:Ed.
    + by apply py_in_true.
    + apply elem_of_app. right. by left.
  - intros cfg t p Hcfg Ht Halive.
    set (r1 := set_deactivated_slaves [alias] (init FailoverReplicationRouter cfg)).
    assert (E1 : deactivate_slave alias (init FailoverReplicationRouter cfg) = Return r1).
    { unfold deactivate_slave. simpl.
      apply py_in_false in Hcfg. by rewrite Hcfg. }
    set (Q := fun r => cls r = FailoverReplicationRouter /\
                       deactivated_slaves r !! 0 = Some alias /\ alias ∉ SLAVES r).
    set (P := fun r => cls r = FailoverReplicationRouter /\ alias ∈ SLAVES r).
    assert (HQ : forall a r r', Q r -> a ∈ SLAVES r ->
                                deactivate_slave a r = Return r' -> Q r').
    { intros a r r' (Hc & Hhd & Hs) Ha E.
      destruct (deactivate_slave_spec a r) as (r0 & E0 & Hc0 & _ & _ & _ & _ & Hd0 & Hs0).
      rewrite E0 in E. injection E as ->.
      split; [congruence|]. split.
      - rewrite Hd0. destruct (py_in a (deactivated_slaves r)); [done|].
        rewrite lookup_app_l; [done|]. by eapply lookup_lt_Some.
      - apply py_in_true in Ha. rewrite Ha in Hs0.
        intros Hin. apply Hs. by eapply py_remove_subseteq. }
    assert (HP : forall a r r', P r -> a ∈ deactivated_slaves r ->
                                activate_slave a r = Return r' -> P r').
    { intros a r r' (Hc & Hs) Ha E.
      destruct (activate_slave_spec a r) as (r0 & E0 & Hc0 & _ & _ & _ & _ & Hs0 & _).
      rewrite E0 in E. injection E as ->.
      split; [congruence|]. rewrite Hs0.
      destruct (py_in a (SLAVES r)); [done|]. apply elem_of_app. by left. }
    destruct (check_slaves_fuel p r1) as (r2 & r3 & E & Eloop1 & Eloop2).
    assert (HQ1 : Q r1) by (repeat split; done).
    destruct (check_alive_preserves Q p HQ _ _ _ _ HQ1
                (Eloop1 _ (Nat.lt_succ_diag_r _)))
      as (r2' & [= <-] & Hc2 & Hhd2 & Hs2).
    pose proof (Eloop2 _ (Nat.lt_succ_diag_r _)) as E3. simpl in E3.
    rewrite Hhd2, Halive in E3.
    destruct (activate_slave_spec alias r2) as (r2a & Ea & Hca & _ & _ & _ & _ & Hsa & _).
    rewrite Ea in E3. simpl in E3.
    assert (HPa : P r2a).
    { split; [congruence|]. rewrite Hsa. apply py_in_false in Hs2. rewrite Hs2.
      apply elem_of_app. right. by left. }
    destruct (check_alive_again_preserves P p HP _ _ _ _ HPa E3)
      as (r3' & [= <-] & Hc3 & Hs3).
    assert (Hcheck : exists r4, check t p r1 = Some (Return r4) /\ alias ∈ SLAVES r4).
    { unfold check. rewrite E. simpl. destruct (do_check_master t); [|by eauto].
      unfold check_master. rewrite Ht.
      destruct (FailoverThread_check_master_frame p r3 Hc3) as (r4 & E4 & Hs4 & _).
      exists r4. rewrite E4. split; [done|]. by rewrite Hs4. }
    destruct Hcheck as (r4 & E4 & Hs4).
    exists r1, r4. repeat split; try done. simpl. by left.
Qed.

Lemma deactivate_slave_accepts_any_alias_witness :
  (slave3 ∉ [slave1; slave2]) /\
  exists r1 r2,
    deactivate_slave slave3 (init FailoverReplicationRouter [slave1; slave2])
    = Return r1 /\
    slave3 ∈ deactivated_slaves r1 /\
    check (liveness_checker true) all_alive r1 = Some (Return r2) /\
    slave3 ∈ SLAVES r2.
Proof.
  assert (Hcfg : slave3 ∉ [slave1; slave2])
    by (apply (bool_decide_unpack _); vm_compute; exact I).
  split; [exact Hcfg|].
  exact (proj2 (deactivate_slave_accepts_any_alias slave3)
           [slave1; slave2] (liveness_checker true) all_alive Hcfg eq_refl eq_refl).
Defined.

(** * Further properties of the registry and the checker *)

(** ** Duplicates and repeated calls *)

Section MoreRegistryFacts.
Context `{SetOrder}.

Lemma promote_deactivated_slaves alias r :
  deactivated_slaves (state_of (promote alias r)) = deactivated_slaves r.
Proof.
  unfold promote. destruct (decide _); [done|]. simpl.
  by destruct (py_remove _ _).
Qed.

Lemma set_master_deactivated_slaves alias r :
  deactivated_slaves (state_of (set_master alias r)) = deactivated_slaves r.
Proof.
  unfold set_master. destruct (cls r); [done|]. apply promote_deactivated_slaves.
Qed.

Lemma exec_NoDup_deactivated op r :
  NoDup (deactivated_slaves r) ->
  NoDup (deactivated_slaves (state_of (exec op r))).
Proof.
  intros Hr. destruct op as [a|a| | |a]; simpl.
  - destruct (deactivate_slave_spec a r) as (r' & -> & _ & _ & _ & _ & _ & Hd & _).
    simpl. rewrite Hd. destruct (py_in a (deactivated_slaves r)) eqn:Ed; [done|].
    apply py_in_false in Ed. apply NoDup_app. repeat split; [done| |apply NoDup_singleton].
    by intros x Hx ->%list_elem_of_singleton.
  - destruct (activate_slave_spec a r) as (r' & -> & _ & _ & _ & _ & _ & _ & Hd).
    simpl. destruct (py_in a (deactivated_slaves r)).
    + by destruct (py_remove_NoDup _ _ _ Hr Hd).
    + by rewrite Hd.
  - unfold deactivate_master. destruct (truthy _); [|done].
    by rewrite set_master_deactivated_slaves.
  - unfold activate_master. destruct (negb _); [|done].
    by rewrite set_master_deactivated_slaves.
  - by rewrite set_master_deactivated_slaves.
Qed.

Lemma exec_all_NoDup_deactivated ops r :
  NoDup (deactivated_slaves r) -> NoDup (deactivated_slaves (exec_all ops r)).
Proof.
  revert r. induction ops as [|op ops IH]; intros r Hr; [done|].
  simpl. apply IH. by apply exec_NoDup_deactivated.
Qed.

Lemma activate_slave_fixed alias r :
  alias ∈ SLAVES r -> alias ∉ deactivated_slaves r ->
  activate_slave alias r = Return r.
Proof.
  intros Hs%py_in_true Hd%py_in_false. unfold activate_slave.
  rewrite Hs. simpl. by rewrite Hd.
Qed.

Lemma activate_slave_twice_NoDup alias r :
  NoDup (deactivated_slaves r) ->
  (do r1 <- activate_slave alias r; activate_slave alias r1)
  = activate_slave alias r.
Proof.
  intros Hr. destruct (activate_slave_spec alias r)
    as (r1 & E & _ & _ & _ & _ & _ & Hs & Hd).
  rewrite E. simpl. apply activate_slave_fixed.
  - rewrite Hs. destruct (py_in alias (SLAVES r)) eqn:Es.
    + by apply py_in_true.
    + apply elem_of_app. right. by left.
  - destruct (py_in alias (deactivated_slaves r)) eqn:Ed.
    + by destruct (py_remove_NoDup _ _ _ Hr Hd).
    + rewrite Hd. by apply py_in_false.
Qed.

(** X1.  [deactivated_slaves] never lists an alias twice: it starts empty
    and [deactivate_slave] is its only writer that adds, after a membership
    test.  This holds on either router class, for any configured slave list
    (duplicates included) and after any sequence of registry calls, whether
    they return or raise. *)
Theorem deactivated_slaves_NoDup (c : router_cls) (cfg : list pyval) (ops : list reg_op) :
  NoDup (deactivated_slaves (exec_all ops (init c cfg))).
Proof. apply exec_all_NoDup_deactivated. simpl. apply NoDup_nil_2. Qed.

(** X2.  [activate_slave] is idempotent in every state either router can
    reach, whatever the configured slave list: called twice in a row it ends
    as it does called once. *)
Theorem activate_slave_idempotent
    (c : router_cls) (cfg : list pyval) (ops : list reg_op) (alias : pyval) :
  (do r1 <- activate_slave alias (exec_all ops (init c cfg));
   activate_slave alias r1)
  = activate_slave alias (exec_all ops (init c cfg)).
Proof.
  apply activate_slave_twice_NoDup, exec_all_NoDup_deactivated.
  simpl. apply NoDup_nil_2.
Qed.

End MoreRegistryFacts.

(** ** How the slave operations compose *)

Lemma py_remove_middle x l1 l2 :
  x ∉ l1 -> py_remove x (l1 ++ x :: l2) = Some (l1 ++ l2).
Proof.
  induction l1 as [|y l1 IH]; simpl; intros Hx.
  - by rewrite decide_True.
  - apply not_elem_of_cons in Hx as [Hne Hx].
    rewrite decide_False by done. by rewrite IH.
Qed.

Lemma py_remove_last x l : x ∉ l -> py_remove x (l ++ [x]) = Some l.
Proof. intros Hx. rewrite py_remove_middle by done. by rewrite app_nil_r. Qed.

(** X3.  A slave that fails and comes back goes to the end of the list.
    In a state where neither list names an alias twice and no alias is in
    both, deactivating an active slave and activating it again returns with
    [SLAVES] equal to the old list without that slave, followed by it; the
    other attributes, [deactivated_slaves] included, are as before. *)
Theorem deactivate_then_activate_moves_last (alias : pyval) (r : router) :
  registry_inv r -> alias ∈ SLAVES r ->
  exists l,
    py_remove alias (SLAVES r) = Some l /\
    (do r1 <- deactivate_slave alias r; activate_slave alias r1)
    = Return (set_SLAVES (l ++ [alias]) r).
Proof.
  intros (Hs & Hd & Hdisj) Hin.
  assert (Hnd : alias ∉ deactivated_slaves r) by (intros Ha; by apply (Hdisj alias)).
  destruct (py_remove_elem _ _ Hin) as [l El]. exists l. split; [done|].
  destruct (py_remove_NoDup _ _ _ Hs El) as [_ Hal].
  apply py_in_true in Hin. apply py_in_false in Hnd, Hal.
  unfold deactivate_slave. rewrite Hnd. simpl. rewrite Hin, El. simpl.
  unfold activate_slave. simpl. rewrite Hal. simpl.
  assert (Hlast : py_in alias (deactivated_slaves r ++ [alias]) = true).
  { apply py_in_true, elem_of_app. right. by left. }
  rewrite Hlast, py_remove_last by (by apply py_in_false).
  by destruct r.
Qed.

Lemma deactivate_then_activate_moves_last_witness :
  registry_inv (init FailoverReplicationRouter [slave1; slave2; slave3]) /\
  exists l,
    py_remove slave1 [slave1; slave2; slave3] = Some l /\
    (do r1 <- deactivate_slave slave1
                (init FailoverReplicationRouter [slave1; slave2; slave3]);
     activate_slave slave1 r1)
    = Return (set_SLAVES (l ++ [slave1])
                (init FailoverReplicationRouter [slave1; slave2; slave3])).
Proof.
  assert (Hinv : registry_inv (init FailoverReplicationRouter [slave1; slave2; slave3])).
  { apply init_registry_inv. apply (bool_decide_unpack _). vm_compute. exact I. }
  split; [exact Hinv|].
  apply (deactivate_then_activate_moves_last slave1
           (init FailoverReplicationRouter [slave1; slave2; slave3]) Hinv).
  simpl. by left.
Defined.

(** ** The promotion setter *)

(** What a failed swap leaves behind. *)
Lemma promote_raises `{SetOrder} alias r :
  MASTER r <> alias -> alias ∉ SLAVES r ->
  exists r', promote alias r = Raise ValueError r' /\
    cls r' = cls r /\ MASTER r' = alias /\
    deactivated_slaves r' = deactivated_slaves r /\
    NoDup (SLAVES r') /\
    (forall x, x ∈ SLAVES r' <-> x ∈ SLAVES r \/ x = MASTER r).
Proof.
  intros Hne Hin. unfold promote. rewrite decide_False by done. simpl.
  rewrite py_remove_not_elem.
  - eexists. split; [reflexivity|]. simpl. repeat split; try done.
    + apply list_of_set_NoDup.
    + intros Hx. apply list_of_set_elem, elem_of_app in Hx.
      destruct Hx as [?|?%list_elem_of_singleton]; eauto.
    + intros Hx. apply list_of_set_elem, elem_of_app.
      destruct Hx as [?| ->]; [by left|right; by left].
  - rewrite list_of_set_elem, elem_of_app, list_elem_of_singleton.
    intros [?|?]; done.
Qed.

(** X4.  On a promotion router, assigning the master returns normally
    exactly when the new alias is the current master or one of the active
    slaves.  For any other alias the assignment raises ValueError after the
    state has changed: the alias is the master, although it is no database
    of the pool, and [SLAVES] holds its old entries and the previous master,
    each once. *)
Theorem set_master_returns_iff `{SetOrder} (alias : pyval) (r : router) :
  cls r = MasterFailoverReplicationRouter ->
  ((exists r', set_master alias r = Return r') <->
   (alias = MASTER r \/ alias ∈ SLAVES r)) /\
  (alias <> MASTER r -> alias ∉ SLAVES r ->
   exists r', set_master alias r = Raise ValueError r' /\
     master r' = alias /\
     deactivated_slaves r' = deactivated_slaves r /\
     NoDup (SLAVES r') /\
     (forall x, x ∈ SLAVES r' <-> x ∈ SLAVES r \/ x = MASTER r)).
Proof.
  intros Hc. unfold set_master, master. rewrite Hc. split.
  - split.
    + intros [r' E]. destruct (decide (alias = MASTER r)) as [|Hne]; [by left|].
      right. destruct (decide (alias ∈ SLAVES r)) as [|Hin]; [done|].
      destruct (promote_raises alias r) as (r1 & E1 & _); [done..|]. congruence.
    + intros [->|Hin].
      * exists r. by apply promote_same.
      * destruct (decide (MASTER r = alias)) as [E|Hne].
        -- exists r. by apply promote_same.
        -- destruct (promote_spec alias r Hne Hin) as (r' & E & _). eauto.
  - intros Hne Hin.
    destruct (promote_raises alias r) as (r' & E & Hc' & Hm & Hd & Hnd & Hel); [done..|].
    exists r'. rewrite Hc', Hc. done.
Qed.

Lemma set_master_returns_iff_witness :
  (exists r', set_master slave3 (init MasterFailoverReplicationRouter [slave1; slave2])
              = Return r') <->
  (slave3 = DEFAULT_DB_ALIAS \/ slave3 ∈ [slave1; slave2]).
Proof.
  exact (proj1 (set_master_returns_iff slave3
                  (init MasterFailoverReplicationRouter [slave1; slave2]) eq_refl)).
Defined.

(** X5.  Promoting an active slave and then promoting the previous master
    back restores the master and the membership of [SLAVES] (its order may
    differ), and leaves [deactivated_slaves] alone, provided [SLAVES] names
    no alias twice and does not name the master. *)
Theorem promote_and_back `{SetOrder} (alias : pyval) (r : router) :
  cls r = MasterFailoverReplicationRouter ->
  NoDup (SLAVES r) -> MASTER r ∉ SLAVES r -> alias ∈ SLAVES r ->
  exists r1 r2,
    set_master alias r = Return r1 /\
    set_master (MASTER r) r1 = Return r2 /\
    master r1 = alias /\
    master r2 = master r /\
    SLAVES r2 ≡ₚ SLAVES r /\
    deactivated_slaves r2 = deactivated_slaves r.
Proof.
  intros Hc Hnd Hm Hin. unfold set_master, master.
  assert (Hne : MASTER r <> alias) by (by intros E; rewrite E in Hm).
  destruct (promote_spec alias r Hne Hin)
    as (r1 & E1 & Hc1 & _ & Hm1 & _ & _ & Hd1 & Hnd1 & Hel1).
  assert (Hin1 : MASTER r ∈ SLAVES r1) by (apply Hel1; split; [done|by right]).
  assert (Hne1 : MASTER r1 <> MASTER r) by (rewrite Hm1; done).
  destruct (promote_spec (MASTER r) r1 Hne1 Hin1)
    as (r2 & E2 & Hc2 & _ & Hm2 & _ & _ & Hd2 & Hnd2 & Hel2).
  rewrite Hc in Hc1. rewrite Hc1 in Hc2.
  exists r1, r2. rewrite Hc, Hc1, Hc2. repeat split; try done.
  - apply NoDup_Permutation; [done..|]. intros x. rewrite Hel2, Hel1, Hm1.
    split.
    + intros [Hx [[_ [?|?]]| ->]]; done.
    + intros Hx. split; [by intros ->|].
      destruct (decide (x = alias)) as [->|?]; [by right|]. left. split; [done|by left].
  - congruence.
Qed.

Lemma promote_and_back_witness :
  exists r1 r2,
    set_master slave2 (init MasterFailoverReplicationRouter [slave1; slave2])
    = Return r1 /\
    set_master DEFAULT_DB_ALIAS r1 = Return r2 /\
    master r1 = slave2 /\
    master r2 = DEFAULT_DB_ALIAS /\
    SLAVES r2 ≡ₚ [slave1; slave2] /\
    deactivated_slaves r2 = [].
Proof.
  apply (promote_and_back slave2
           (init MasterFailoverReplicationRouter [slave1; slave2]) eq_refl).
  - apply (bool_decide_unpack _). vm_compute. exact I.
  - apply (bool_decide_unpack _). vm_compute. exact I.
  - simpl. right. by left.
Defined.

(** X6.  [MasterFailoverThread.check_master] leaves the router exactly as
    it is when the master is writable, and also when the master is
    read-only but every active slave is read-only too. *)
Theorem check_master_without_candidate `{SetOrder} (p : probes) (r : router) :
  cls r = MasterFailoverReplicationRouter ->
  db_is_read_only p (MASTER r) = false \/
    (forall a, a ∈ SLAVES r -> db_is_read_only p a = true) ->
  MasterFailoverThread_check_master p r = Return r.
Proof.
  intros Hc Hcase. unfold MasterFailoverThread_check_master. rewrite Hc.
  destruct (db_is_read_only p (MASTER r)) eqn:Em; [|done].
  destruct Hcase as [?|Hall]; [done|].
  induction (SLAVES r) as [|a l IH]; simpl; [done|].
  rewrite (Hall a) by (by left). simpl. apply IH.
  intros x Hx. apply Hall. by right.
Qed.

Lemma check_master_without_candidate_witness :
  MasterFailoverThread_check_master (only slave1 slave3)
    (init MasterFailoverReplicationRouter [slave1; slave2])
  = Return (init MasterFailoverReplicationRouter [slave1; slave2]).
Proof.
  apply check_master_without_candidate; [reflexivity|].
  right. intros a Ha.
  apply elem_of_cons in Ha as [->|Ha]; [reflexivity|].
  apply list_elem_of_singleton in Ha as ->. reflexivity.
Defined.

(** X7.  On a promotion router in its initial state, whose slave list does
    not contain [None], [deactivate_master] raises ValueError and leaves the
    master [None]; a following [activate_master] returns normally with the
    default alias as master again, and [None] is then one of the active
    slaves. *)
Theorem deactivate_master_makes_None_a_slave `{SetOrder} (cfg : list pyval) :
  PyNone ∉ cfg ->
  exists r1 r2,
    deactivate_master (init MasterFailoverReplicationRouter cfg)
    = Raise ValueError r1 /\
    master r1 = PyNone /\
    activate_master r1 = Return r2 /\
    master r2 = DEFAULT_DB_ALIAS /\
    PyNone ∈ SLAVES r2.
Proof.
  intros Hcfg.
  set (r0 := init MasterFailoverReplicationRouter cfg).
  destruct (promote_raises PyNone r0) as (r1 & E1 & Hc1 & Hm1 & _ & _ & Hel1);
    [done|done|].
  assert (Hne : MASTER r1 <> DEFAULT_DB_ALIAS) by (by rewrite Hm1).
  assert (Hin : DEFAULT_DB_ALIAS ∈ SLAVES r1) by (apply Hel1; by right).
  destruct (promote_spec DEFAULT_DB_ALIAS r1 Hne Hin)
    as (r2 & E2 & Hc2 & _ & Hm2 & _ & _ & _ & _ & Hel2).
  assert (Hc1' : cls r1 = MasterFailoverReplicationRouter) by exact Hc1.
  assert (Hc2' : cls r2 = MasterFailoverReplicationRouter) by congruence.
  exists r1, r2.
  unfold deactivate_master, activate_master, set_master, master.
  rewrite Hc2', Hc1', Hm1. subst r0. simpl.
  repeat split; try done.
  apply Hel2. split; [done|]. right. by rewrite Hm1.
Qed.

Lemma deactivate_master_makes_None_a_slave_witness :
  (PyNone ∉ [slave1; slave2]) /\
  exists r1 r2,
    deactivate_master (init MasterFailoverReplicationRouter [slave1; slave2])
    = Raise ValueError r1 /\
    master r1 = PyNone /\
    activate_master r1 = Return r2 /\
    master r2 = DEFAULT_DB_ALIAS /\
    PyNone ∈ SLAVES r2.
Proof.
  assert (Hcfg : PyNone ∉ [slave1; slave2])
    by (apply (bool_decide_unpack _); vm_compute; exact I).
  split; [exact Hcfg|].
  exact (deactivate_master_makes_None_a_slave [slave1; slave2] Hcfg).
Defined.

(** ** What a tick keeps *)

Lemma deactivate_slave_conserves alias r r' :
  registry_inv r -> alias ∈ SLAVES r ->
  deactivate_slave alias r = Return r' ->
  SLAVES r' ++ deactivated_slaves r' ≡ₚ SLAVES r ++ deactivated_slaves r.
Proof.
  intros (Hs & Hd & Hdisj) Hin E.
  destruct (deactivate_slave_spec alias r) as (r1 & E1 & _ & _ & _ & _ & _ & Hd1 & Hs1).
  rewrite E1 in E. injection E as ->.
  assert (Hnd : alias ∉ deactivated_slaves r) by (intros Ha; by apply (Hdisj alias)).
  apply py_in_true in Hin. apply py_in_false in Hnd.
  rewrite Hin in Hs1. rewrite Hnd in Hd1. apply py_remove_Some in Hs1.
  rewrite Hd1, Hs1. simpl. rewrite app_assoc. by rewrite <- Permutation_cons_append.
Qed.

Lemma activate_slave_conserves alias r r' :
  registry_inv r -> alias ∈ deactivated_slaves r ->
  activate_slave alias r = Return r' ->
  SLAVES r' ++ deactivated_slaves r' ≡ₚ SLAVES r ++ deactivated_slaves r.
Proof.
  intros (Hs & Hd & Hdisj) Hin E.
  destruct (activate_slave_spec alias r) as (r1 & E1 & _ & _ & _ & _ & _ & Hs1 & Hd1).
  rewrite E1 in E. injection E as ->.
  assert (Hns : alias ∉ SLAVES r) by (intros Ha; by apply (Hdisj alias)).
  apply py_in_true in Hin. apply py_in_false in Hns.
  rewrite Hin in Hd1. rewrite Hns in Hs1. apply py_remove_Some in Hd1.
  rewrite Hs1, Hd1. rewrite <- app_assoc. simpl. done.
Qed.

(** X8.  A [FailoverThread] neither loses nor invents a slave.  On a base
    router whose lists name no alias twice and share none, after any number
    of ticks, whatever the probes answer in each, every alias that was
    active or deactivated is in exactly one of the two lists, and no other
    alias is. *)
Theorem ticks_conserve_slaves `{SetOrder}
    (t : checker) (ps : list probes) (r : router) :
  kind t = FailoverThread ->
  cls r = FailoverReplicationRouter ->
  registry_inv r ->
  exists r',
    ticks t ps r = Some (Return r') /\
    SLAVES r' ++ deactivated_slaves r' ≡ₚ SLAVES r ++ deactivated_slaves r /\
    disjoint_slaves r'.
Proof.
  intros Ht. set (M := SLAVES r ++ deactivated_slaves r).
  set (P := fun r => cls r = FailoverReplicationRouter /\ registry_inv r /\
                     SLAVES r ++ deactivated_slaves r ≡ₚ M).
  assert (Hticks : forall r0, P r0 -> exists r', ticks t ps r0 = Some (Return r') /\ P r').
  { induction ps as [|p ps IH]; intros r0 HP0; simpl; [eauto|].
    assert (Hcheck : exists r1, check t p r0 = Some (Return r1) /\ P r1).
    { unfold check.
      destruct (check_slaves_preserves P p r0) as (r1 & -> & HP1); [| |done|].
      - intros a r1 r1' (Hc1 & Hr1 & HM1) Ha E. split; [|split].
        + destruct (deactivate_slave_spec a r1) as (? & E' & Hc' & _). congruence.
        + by eapply deactivate_slave_inv.
        + by rewrite (deactivate_slave_conserves _ _ _ Hr1 Ha E).
      - intros a r1 r1' (Hc1 & Hr1 & HM1) Ha E. split; [|split].
        + destruct (activate_slave_spec a r1) as (? & E' & Hc' & _). congruence.
        + by eapply activate_slave_inv.
        + by rewrite (activate_slave_conserves _ _ _ Hr1 Ha E).
      - simpl. destruct (do_check_master t); [|by eauto].
        pose proof HP1 as (Hc1 & Hr1 & HM1).
        unfold check_master. rewrite Ht.
        destruct (FailoverThread_check_master_inv p r1 Hc1 Hr1) as (r2 & E2 & Hc2 & Hr2).
        destruct (FailoverThread_check_master_frame p r1 Hc1) as (r2' & E2' & Hs2 & Hd2).
        rewrite E2 in E2'. injection E2' as <-.
        exists r2. rewrite E2. split; [done|]. split; [done|]. split; [done|].
        by rewrite Hs2, Hd2. }
    destruct Hcheck as (r1 & -> & HP1). simpl. by apply IH. }
  intros Hc Hr. destruct (Hticks r) as (r' & E & _ & Hr' & HM); [done|].
  exists r'. split; [done|]. split; [done|]. by destruct Hr' as (_ & _ & ?).
Qed.

Lemma ticks_conserve_slaves_witness :
  exists r',
    ticks (liveness_checker true) [all_dead; all_alive; only slave2 slave2]
      (init FailoverReplicationRouter [slave1; slave2; slave3])
    = Some (Return r') /\
    SLAVES r' ++ deactivated_slaves r' ≡ₚ [slave1; slave2; slave3] ++ [] /\
    disjoint_slaves r'.
Proof.
  apply (ticks_conserve_slaves (liveness_checker true)
           [all_dead; all_alive; only slave2 slave2]
           (init FailoverReplicationRouter [slave1; slave2; slave3]) eq_refl eq_refl).
  apply init_registry_inv. apply (bool_decide_unpack _). vm_compute. exact I.
Defined.

(** X9.  The promotion checker neither loses nor invents a database.  On a
    promotion router that satisfies [promotion_inv], after any number of
    ticks, whatever the probes answer in each, the master and the two lists
    together name exactly the aliases they named before, each once: every
    database of the pool is the master, an active slave or a deactivated
    slave, and only one of these. *)
Theorem promotion_ticks_conserve_pool `{SetOrder}
    (t : checker) (ps : list probes) (r : router) :
  kind t = MasterFailoverThread ->
  promotion_inv r ->
  exists r',
    ticks t ps r = Some (Return r') /\
    master r' :: SLAVES r' ++ deactivated_slaves r'
      ≡ₚ master r :: SLAVES r ++ deactivated_slaves r /\
    NoDup (master r' :: SLAVES r' ++ deactivated_slaves r').
Proof.
  intros Ht. set (M := MASTER r :: SLAVES r ++ deactivated_slaves r).
  set (P := fun r => promotion_inv r /\
                     MASTER r :: SLAVES r ++ deactivated_slaves r ≡ₚ M).
  assert (Hprom : forall p l r0, (forall a, a ∈ l -> a ∈ SLAVES r0) -> P r0 ->
                  exists r', promote_first p l r0 = Return r' /\ P r').
  { intros p l r0. induction l as [|a l IH]; intros Hl HP0; simpl; [eauto|].
    destruct (negb (db_is_read_only p a)); [|apply IH; [|done]; intros x Hx; apply Hl; by right].
    destruct HP0 as [Hinv HM].
    assert (Ha : a ∈ SLAVES r0) by (apply Hl; by left).
    destruct (promote_promotion_inv a r0 Hinv Ha) as (r' & E & Hinv').
    exists r'. split; [done|]. split; [done|].
    destruct Hinv as (Hc0 & (Hs0 & _ & _) & Hms0 & _).
    unfold set_master in E. rewrite Hc0 in E.
    assert (Hne : MASTER r0 <> a) by (by intros Ea; rewrite Ea in Hms0).
    destruct (promote_spec a r0 Hne Ha) as (r1 & E1 & _ & _ & Hm1 & _ & _ & Hd1 & Hnd1 & Hel1).
    rewrite E1 in E. injection E as ->.
    rewrite <- HM, Hd1, Hm1, !app_comm_cons. apply Permutation_app_tail.
    apply NoDup_Permutation.
    - apply NoDup_cons. split; [|done]. by intros [? _]%Hel1.
    - by apply NoDup_cons.
    - intros x. rewrite !elem_of_cons, Hel1. split.
      + intros [->|[_ [?|?]]]; auto.
      + intros [->|Hx]; [right; split; [done|by right]|].
        destruct (decide (x = a)) as [->|?]; [by left|]. right. split; [done|by left]. }
  assert (Hticks : forall r0, P r0 -> exists r', ticks t ps r0 = Some (Return r') /\ P r').
  { induction ps as [|p ps IH]; intros r0 HP0; simpl; [eauto|].
    assert (Hcheck : exists r1, check t p r0 = Some (Return r1) /\ P r1).
    { unfold check.
      destruct (check_slaves_preserves P p r0) as (r1 & -> & HP1); [| |done|].
      - intros a r1 r1' (Hr1 & HM1) Ha E. split.
        + by eapply deactivate_slave_promotion_inv.
        + destruct Hr1 as (_ & Hr1 & _).
          rewrite <- HM1, <- (deactivate_slave_conserves _ _ _ Hr1 Ha E).
          destruct (deactivate_slave_spec a r1) as (? & E' & _ & _ & Hm' & _).
          rewrite E' in E. injection E as ->. by rewrite Hm'.
      - intros a r1 r1' (Hr1 & HM1) Ha E. split.
        + by eapply activate_slave_promotion_inv.
        + destruct Hr1 as (_ & Hr1 & _).
          rewrite <- HM1, <- (activate_slave_conserves _ _ _ Hr1 Ha E).
          destruct (activate_slave_spec a r1) as (? & E' & _ & _ & Hm' & _).
          rewrite E' in E. injection E as ->. by rewrite Hm'.
      - simpl. destruct (do_check_master t); [|by eauto].
        unfold check_master, MasterFailoverThread_check_master. rewrite Ht.
        pose proof HP1 as [[Hc1 _] _]. rewrite Hc1.
        destruct (db_is_read_only p (MASTER r1)); [|by eauto].
        destruct (Hprom p (SLAVES r1) r1) as (r2 & -> & ?); eauto. }
    destruct Hcheck as (r1 & -> & HP1). simpl. by apply IH. }
  intros Hr. destruct (Hticks r) as (r' & E & Hr' & HM); [done|].
  assert (Hm : forall r0, promotion_inv r0 -> master r0 = MASTER r0).
  { intros r0 [Hc0 _]. unfold master. by rewrite Hc0. }
  exists r'. rewrite !Hm by done. split; [done|]. split; [done|].
  destruct Hr' as (_ & (Hs & Hd & Hdisj) & Hms & Hmd).
  apply NoDup_cons. split.
  - intros [?|?]%elem_of_app; done.
  - apply NoDup_app. split; [done|]. split; [|done].
    intros x Hx Hx'. by apply (Hdisj x).
Qed.

Lemma promotion_ticks_conserve_pool_witness :
  promotion_inv (init MasterFailoverReplicationRouter [slave1; slave2]) /\
  exists r',
    ticks promotion_checker [all_dead; all_alive]
      (init MasterFailoverReplicationRouter [slave1; slave2])
    = Some (Return r') /\
    master r' :: SLAVES r' ++ deactivated_slaves r'
      ≡ₚ DEFAULT_DB_ALIAS :: [slave1; slave2] ++ [] /\
    NoDup (master r' :: SLAVES r' ++ deactivated_slaves r').
Proof.
  assert (Hinv : promotion_inv (init MasterFailoverReplicationRouter [slave1; slave2])).
  { apply init_promotion_inv; apply (bool_decide_unpack _); vm_compute; exact I. }
  split; [exact Hinv|].
  exact (promotion_ticks_conserve_pool promotion_checker [all_dead; all_alive]
           (init MasterFailoverReplicationRouter [slave1; slave2]) eq_refl Hinv).
Defined.

(** ** Convergence of the checker under steady probes *)

Lemma py_remove_filter_length (P : pyval -> Prop) `{forall x, Decision (P x)} x l l' :
  py_remove x l = Some l' ->
  length (filter P l) = length (filter P l') + (if decide (P x) then 1 else 0).
Proof.
  revert l'. induction l as [|y l IH]; intros l'; simpl; [done|].
  destruct (decide (x = y)) as [->|Hne].
  - intros [= ->]. rewrite filter_cons. destruct (decide (P y)); simpl; lia.
  - destruct (py_remove x l) as [k|]; simpl; [|done].
    intros [= <-]. rewrite !filter_cons.
    destruct (decide (P y)); simpl; rewrite (IH k eq_refl); lia.
Qed.

Lemma deactivate_slave_measures p a r r' :
  a ∈ SLAVES r -> db_is_alive p a = false ->
  deactivate_slave a r = Return r' ->
  dead_active p r = S (dead_active p r') /\
  alive_deactivated p r' = alive_deactivated p r.
Proof.
  intros Hin Hdead E.
  destruct (deactivate_slave_spec a r) as (r1 & E1 & _ & _ & _ & _ & _ & Hd & Hs).
  rewrite E1 in E. injection E as ->.
  apply py_in_true in Hin. rewrite Hin in Hs.
  unfold dead_active, alive_deactivated. split.
  - rewrite (py_remove_filter_length (fun a => db_is_alive p a = false) _ _ _ Hs).
    rewrite decide_True by done. lia.
  - rewrite Hd. destruct (py_in a (deactivated_slaves r)); [done|].
    rewrite filter_app, length_app, filter_cons_False by congruence. simpl. lia.
Qed.

Lemma activate_slave_measures p a r r' :
  a ∈ deactivated_slaves r -> db_is_alive p a = true ->
  activate_slave a r = Return r' ->
  alive_deactivated p r = S (alive_deactivated p r') /\
  dead_active p r' = dead_active p r.
Proof.
  intros Hin Halive E.
  destruct (activate_slave_spec a r) as (r1 & E1 & _ & _ & _ & _ & _ & Hs & Hd).
  rewrite E1 in E. injection E as ->.
  apply py_in_true in Hin. rewrite Hin in Hd.
  unfold dead_active, alive_deactivated. split.
  - rewrite (py_remove_filter_length (fun a => db_is_alive p a = true) _ _ _ Hd).
    rewrite decide_True by done. lia.
  - rewrite Hs. destruct (py_in a (SLAVES r)); [done|].
    rewrite filter_app, length_app, filter_cons_False by congruence. simpl. lia.
Qed.

(** The first loop removes the first active slave that does not answer,
    whatever else it skips. *)
Lemma check_alive_measures fuel i p r r' :
  check_alive fuel i p r = Some (Return r') ->
  dead_active p r' <= dead_active p r /\
  alive_deactivated p r' = alive_deactivated p r /\
  (forall j a, i <= j -> SLAVES r !! j = Some a -> db_is_alive p a = false ->
               dead_active p r' < dead_active p r).
Proof.
  revert i r. induction fuel as [|fuel IH]; intros i r; simpl; [done|].
  destruct (SLAVES r !! i) as [x|] eqn:Ex.
  - destruct (db_is_alive p x) eqn:Hx; simpl.
    + intros (Hle & Heq & Hlt)%IH. split; [done|]. split; [done|].
      intros j a Hj Ea Ha. destruct (decide (j = i)) as [->|Hne]; [congruence|].
      apply (Hlt j a); [lia|done..].
    + destruct (deactivate_slave_spec x r) as (r1 & E1 & _). rewrite E1. simpl.
      intros (Hle & Heq & _)%IH.
      pose proof (list_elem_of_lookup_2 _ _ _ Ex) as Hin.
      destruct (deactivate_slave_measures p x r r1 Hin Hx E1) as [Hd Ha].
      split; [lia|]. split; [congruence|]. intros; lia.
  - intros [= <-]. split; [done|]. split; [done|].
    intros j a Hj Ea _. apply lookup_lt_Some in Ea. apply lookup_ge_None in Ex. lia.
Qed.

Lemma check_alive_again_measures fuel i p r r' :
  check_alive_again fuel i p r = Some (Return r') ->
  alive_deactivated p r' <= alive_deactivated p r /\
  dead_active p r' = dead_active p r /\
  (forall j a, i <= j -> deactivated_slaves r !! j = Some a ->
               db_is_alive p a = true ->
               alive_deactivated p r' < alive_deactivated p r).
Proof.
  revert i r. induction fuel as [|fuel IH]; intros i r; simpl; [done|].
  destruct (deactivated_slaves r !! i) as [x|] eqn:Ex.
  - destruct (db_is_alive p x) eqn:Hx; simpl.
    + destruct (activate_slave_spec x r) as (r1 & E1 & _). rewrite E1. simpl.
      intros (Hle & Heq & _)%IH.
      pose proof (list_elem_of_lookup_2 _ _ _ Ex) as Hin.
      destruct (activate_slave_measures p x r r1 Hin Hx E1) as [Hd Ha].
      split; [lia|]. split; [congruence|]. intros; lia.
    + intros (Hle & Heq & Hlt)%IH. split; [done|]. split; [done|].
      intros j a Hj Ea Ha. destruct (decide (j = i)) as [->|Hne]; [congruence|].
      apply (Hlt j a); [lia|done..].
  - intros [= <-]. split; [done|]. split; [done|].
    intros j a Hj Ea _. apply lookup_lt_Some in Ea. apply lookup_ge_None in Ex. lia.
Qed.

Lemma filter_length_pos (P : pyval -> Prop) `{forall x, Decision (P x)} l :
  0 < length (filter P l) -> exists j a, l !! j = Some a /\ P a.
Proof.
  destruct (filter P l) as [|a k] eqn:E; simpl; [lia|]. intros _.
  assert (Ha : a ∈ filter P l) by (rewrite E; by left).
  apply list_elem_of_filter in Ha as [HP Ha].
  apply list_elem_of_lookup_1 in Ha as [j Hj]. eauto.
Qed.

Lemma filter_length_zero (P : pyval -> Prop) `{forall x, Decision (P x)} l :
  length (filter P l) = 0 -> forall a, a ∈ l -> ~ P a.
Proof.
  intros E%length_zero_iff_nil a Ha HP.
  by apply (filter_nil_not_elem_of P l a).
Qed.

Lemma check_slaves_measures p r :
  exists r', check_slaves p r = Some (Return r') /\
    cls r' = cls r /\
    dead_active p r' <= dead_active p r - 1 /\
    alive_deactivated p r' <= alive_deactivated p r - 1.
Proof.
  destruct (check_slaves_fuel p r) as (r1 & r2 & E & E1 & E2).
  exists r2. split; [done|].
  pose proof (E1 _ (Nat.lt_succ_diag_r _)) as E1'.
  pose proof (E2 _ (Nat.lt_succ_diag_r _)) as E2'.
  destruct (check_alive_measures _ _ _ _ _ E1') as (Hle1 & Heq1 & Hlt1).
  destruct (check_alive_again_measures _ _ _ _ _ E2') as (Hle2 & Heq2 & Hlt2).
  split; [|split].
  - destruct (check_slaves_preserves (fun r0 => cls r0 = cls r) p r)
      as (r2' & E' & Hc); [| |done|].
    + intros a r0 r0' Hc0 _ E0.
      destruct (deactivate_slave_spec a r0) as (? & E0' & Hc' & _). congruence.
    + intros a r0 r0' Hc0 _ E0.
      destruct (activate_slave_spec a r0) as (? & E0' & Hc' & _). congruence.
    + congruence.
  - destruct (Nat.eq_0_gt_0_cases (dead_active p r)) as [Hz|Hpos]; [lia|].
    destruct (filter_length_pos _ _ Hpos) as (j & a & Hj & Ha).
    specialize (Hlt1 j a (Nat.le_0_l _) Hj Ha). lia.
  - destruct (Nat.eq_0_gt_0_cases (alive_deactivated p r1)) as [Hz|Hpos]; [lia|].
    destruct (filter_length_pos _ _ Hpos) as (j & a & Hj & Ha).
    specialize (Hlt2 j a (Nat.le_0_l _) Hj Ha). lia.
Qed.

Lemma FailoverThread_check_master_lists `{SetOrder} p r :
  cls r = FailoverReplicationRouter ->
  exists r', FailoverThread_check_master p r = Return r' /\
    cls r' = FailoverReplicationRouter /\
    SLAVES r' = SLAVES r /\ deactivated_slaves r' = deactivated_slaves r.
Proof.
  intros Hc.
  unfold FailoverThread_check_master, deactivate_master, activate_master, set_master.
  rewrite Hc. destruct (truthy (master r)); simpl.
  - destruct (negb _); eauto.
  - destruct (db_is_alive _ _); eauto.
Qed.

(** X10.  Under probes that stay the same, a [FailoverThread] on a base
    router converges in spite of the entries its loops skip: each tick
    deactivates at least one active slave that does not answer and
    reactivates at least one deactivated slave that does, while there are
    any.  After as many ticks as there were of each, every active slave
    answers and no deactivated slave does.  No assumption is made on the
    lists. *)
Theorem ticks_converge `{SetOrder}
    (t : checker) (p : probes) (r : router) (n : nat) :
  kind t = FailoverThread ->
  cls r = FailoverReplicationRouter ->
  dead_active p r <= n ->
  alive_deactivated p r <= n ->
  exists r',
    ticks t (replicate n p) r = Some (Return r') /\
    (forall a, a ∈ SLAVES r' -> db_is_alive p a = true) /\
    (forall a, a ∈ deactivated_slaves r' -> db_is_alive p a = false).
Proof.
  intros Ht.
  assert (Hcheck : forall r0, cls r0 = FailoverReplicationRouter ->
    exists r1, check t p r0 = Some (Return r1) /\
      cls r1 = FailoverReplicationRouter /\
      dead_active p r1 <= dead_active p r0 - 1 /\
      alive_deactivated p r1 <= alive_deactivated p r0 - 1).
  { intros r0 Hc0. unfold check.
    destruct (check_slaves_measures p r0) as (r1 & -> & Hc1 & Hd1 & Ha1). simpl.
    rewrite Hc0 in Hc1.
    destruct (do_check_master t); [|by eauto].
    unfold check_master. rewrite Ht.
    destruct (FailoverThread_check_master_lists p r1 Hc1) as (r2 & E2 & Hc2 & Hs2 & Hd2).
    exists r2. rewrite E2. split; [done|]. split; [done|].
    unfold dead_active, alive_deactivated in *. by rewrite Hs2, Hd2. }
  revert r. induction n as [|n IH]; intros r Hc Hd Ha; simpl.
  - exists r. split; [done|]. split.
    + intros a Hin. destruct (db_is_alive p a) eqn:E; [done|].
      assert (Hz : dead_active p r = 0) by lia.
      destruct (filter_length_zero _ _ Hz a Hin E).
    + intros a Hin. destruct (db_is_alive p a) eqn:E; [|done].
      assert (Hz : alive_deactivated p r = 0) by lia.
      destruct (filter_length_zero _ _ Hz a Hin E).
  - destruct (Hcheck r Hc) as (r1 & -> & Hc1 & Hd1 & Ha1). simpl.
    apply IH; [done|lia..].
Qed.

Lemma ticks_converge_witness :
  dead_active all_dead (init FailoverReplicationRouter [slave1; slave2; slave3]) <= 3 /\
  alive_deactivated all_dead (init FailoverReplicationRouter [slave1; slave2; slave3]) <= 3 /\
  exists r',
    ticks (liveness_checker false) (replicate 3 all_dead)
      (init FailoverReplicationRouter [slave1; slave2; slave3])
    = Some (Return r') /\
    (forall a, a ∈ SLAVES r' -> db_is_alive all_dead a = true) /\
    (forall a, a ∈ deactivated_slaves r' -> db_is_alive all_dead a = false).
Proof.
  assert (Hd : dead_active all_dead
                 (init FailoverReplicationRouter [slave1; slave2; slave3]) <= 3)
    by (vm_compute; lia).
  assert (Ha : alive_deactivated all_dead
                 (init FailoverReplicationRouter [slave1; slave2; slave3]) <= 3)
    by (vm_compute; lia).
  split; [exact Hd|]. split; [exact Ha|].
  exact (ticks_converge (liveness_checker false) all_dead
           (init FailoverReplicationRouter [slave1; slave2; slave3]) 3
           eq_refl eq_refl Hd Ha).
Defined.

(** ** Ticks that change nothing, and ticks that cannot fail *)

Lemma check_alive_steady fuel i p r :
  (forall a, a ∈ SLAVES r -> db_is_alive p a = true) ->
  length (SLAVES r) - i < fuel ->
  check_alive fuel i p r = Some (Return r).
Proof.
  intros Hall. revert i. induction fuel as [|fuel IH]; intros i Hlen; simpl; [lia|].
  destruct (SLAVES r !! i) as [a|] eqn:Ea; [|done].
  rewrite (Hall a) by (by eapply list_elem_of_lookup_2). simpl.
  apply IH. apply lookup_lt_Some in Ea. lia.
Qed.

Lemma check_alive_again_steady fuel i p r :
  (forall a, a ∈ deactivated_slaves r -> db_is_alive p a = false) ->
  length (deactivated_slaves r) - i < fuel ->
  check_alive_again fuel i p r = Some (Return r).
Proof.
  intros Hall. revert i. induction fuel as [|fuel IH]; intros i Hlen; simpl; [lia|].
  destruct (deactivated_slaves r !! i) as [a|] eqn:Ea; [|done].
  rewrite (Hall a) by (by eapply list_elem_of_lookup_2).
  apply IH. apply lookup_lt_Some in Ea. lia.
Qed.

(** X11.  When every active slave answers and no deactivated slave does,
    [check_slaves] returns the router exactly as it was: the state that
    the checker converges to is a fixed point of its two loops, on either
    router class and whatever the lists hold. *)
Theorem check_slaves_steady (p : probes) (r : router) :
  (forall a, a ∈ SLAVES r -> db_is_alive p a = true) ->
  (forall a, a ∈ deactivated_slaves r -> db_is_alive p a = false) ->
  check_slaves p r = Some (Return r).
Proof.
  intros Hs Hd. unfold check_slaves.
  rewrite check_alive_steady by (done || lia). cbn [and_then].
  apply check_alive_again_steady; [done|lia].
Qed.

Lemma check_slaves_steady_witness :
  check_slaves (only slave1 slave1)
    (set_deactivated_slaves [slave2] (init FailoverReplicationRouter [slave1]))
  = Some (Return
            (set_deactivated_slaves [slave2] (init FailoverReplicationRouter [slave1]))).
Proof.
  apply check_slaves_steady; simpl.
  - intros a ->%list_elem_of_singleton. reflexivity.
  - intros a ->%list_elem_of_singleton. reflexivity.
Defined.

(** X12.  With master checking on, a tick of a [FailoverThread] on a base
    router whose master is the default alias or [None] ends with the master
    following the probe of the default alias: the default alias if it
    answers, [None] if it does not. *)
Theorem master_follows_default_probe `{SetOrder}
    (t : checker) (p : probes) (r : router) :
  kind t = FailoverThread ->
  do_check_master t = true ->
  cls r = FailoverReplicationRouter ->
  master r = DEFAULT_DB_ALIAS \/ master r = PyNone ->
  exists r',
    check t p r = Some (Return r') /\
    master r' = if db_is_alive p DEFAULT_DB_ALIAS then DEFAULT_DB_ALIAS else PyNone.
Proof.
  intros Ht Hm Hc Hmaster. unfold check.
  destruct (check_slaves_preserves
              (fun r0 => cls r0 = FailoverReplicationRouter /\ _master r0 = _master r) p r)
    as (r1 & -> & Hc1 & Hm1); [| |done|].
  - intros a r0 r0' [Hc0 Hm0] _ E.
    destruct (deactivate_slave_spec a r0) as (? & E' & Hc' & Hm' & _).
    rewrite E' in E. injection E as ->. split; congruence.
  - intros a r0 r0' [Hc0 Hm0] _ E.
    destruct (activate_slave_spec a r0) as (? & E' & Hc' & Hm' & _).
    rewrite E' in E. injection E as ->. split; congruence.
  - simpl. rewrite Hm. unfold check_master. rewrite Ht.
    unfold FailoverThread_check_master, deactivate_master, activate_master,
      set_master, master in *.
    rewrite Hc in Hmaster. rewrite Hc1, Hm1.
    destruct Hmaster as [Hd|Hd]; rewrite Hd in *; simpl;
      destruct (db_is_alive p DEFAULT_DB_ALIAS); simpl;
      eexists; (split; [reflexivity|]); simpl; by rewrite ?Hc1, ?Hm1.
Qed.

Lemma master_follows_default_probe_witness :
  exists r',
    check (liveness_checker true) all_dead
      (init FailoverReplicationRouter [slave1; slave2]) = Some (Return r') /\
    master r' = if db_is_alive all_dead DEFAULT_DB_ALIAS
                then DEFAULT_DB_ALIAS else PyNone.
Proof.
  apply (master_follows_default_probe (liveness_checker true) all_dead
           (init FailoverReplicationRouter [slave1; slave2])); try reflexivity.
  left. reflexivity.
Defined.

(** X13.  The checker cannot fail on a base router: in any state at all,
    lists with duplicates or shared aliases included, any number of ticks of
    a [FailoverThread] runs to its end and raises nothing.  The same holds
    on either router class for any checker that does not check the master. *)
Theorem ticks_never_raise `{SetOrder}
    (t : checker) (ps : list probes) (r : router) :
  (kind t = FailoverThread /\ cls r = FailoverReplicationRouter) \/
    do_check_master t = false ->
  exists r', ticks t ps r = Some (Return r') /\ cls r' = cls r.
Proof.
  intros Hcase. revert r Hcase. induction ps as [|p ps IH]; intros r Hcase; simpl; [eauto|].
  assert (Hcheck : exists r1, check t p r = Some (Return r1) /\ cls r1 = cls r).
  { unfold check.
    destruct (check_slaves_measures p r) as (r1 & -> & Hc1 & _). simpl.
    destruct (do_check_master t) eqn:Hm; [|by eauto].
    destruct Hcase as [[Ht Hc]|?]; [|done].
    unfold check_master. rewrite Ht. rewrite Hc in Hc1.
    destruct (FailoverThread_check_master_lists p r1 Hc1) as (r2 & -> & Hc2 & _).
    exists r2. split; [done|]. congruence. }
  destruct Hcheck as (r1 & -> & Hc1). simpl.
  destruct (IH r1) as (r' & E & Hc').
  - destruct Hcase as [[Ht Hc]|?]; [left; split; congruence|by right].
  - exists r'. split; [done|]. congruence.
Qed.

Lemma ticks_never_raise_witness :
  exists r',
    ticks (liveness_checker true) [all_dead; all_alive]
      (set_deactivated_slaves [slave1; slave1]
         (init FailoverReplicationRouter [slave1; slave1; slave2]))
    = Some (Return r') /\
    cls r' = FailoverReplicationRouter.
Proof.
  apply (ticks_never_raise (liveness_checker true) [all_dead; all_alive]
           (set_deactivated_slaves [slave1; slave1]
              (init FailoverReplicationRouter [slave1; slave1; slave2]))).
  left. split; reflexivity.
Defined.

(** ** What the first loop does when no slave answers *)

Lemma check_alive_past_end fuel i p r :
  length (SLAVES r) <= i -> check_alive (S fuel) i p r = Some (Return r).
Proof. intros Hi. simpl. by rewrite lookup_ge_None_2. Qed.

Lemma check_alive_all_dead fuel p kept rest r :
  SLAVES r = kept ++ rest ->
  NoDup (kept ++ rest) ->
  (forall a, a ∈ rest -> db_is_alive p a = false /\ a ∉ deactivated_slaves r) ->
  length rest < fuel ->
  exists r',
    check_alive fuel (length kept) p r = Some (Return r') /\
    SLAVES r' = kept ++ odds rest /\
    deactivated_slaves r' = deactivated_slaves r ++ evens rest.
Proof.
  revert kept rest r. induction fuel as [|fuel IH]; intros kept rest r Hs Hnd Hrest Hlen;
    [lia|].
  destruct rest as [|x rest].
  - exists r. rewrite check_alive_past_end by (rewrite Hs, length_app; simpl; lia).
    by rewrite Hs, !app_nil_r.
  - simpl. rewrite Hs, list_lookup_middle by done.
    destruct (Hrest x) as [Hx Hxd]; [by left|]. rewrite Hx. simpl.
    destruct (deactivate_slave_spec x r) as (r1 & E1 & _ & _ & _ & _ & _ & Hd1 & Hs1).
    rewrite E1. simpl.
    assert (Hxk : x ∉ kept).
    { apply NoDup_app in Hnd as (_ & Hkr & _). intros Hin. apply (Hkr x Hin). by left. }
    apply py_in_false in Hxd. rewrite Hxd in Hd1.
    assert (Hin : py_in x (SLAVES r) = true).
    { apply py_in_true. rewrite Hs. apply elem_of_app. right. by left. }
    rewrite Hin, Hs, py_remove_middle in Hs1 by done. injection Hs1 as Hs1.
    destruct rest as [|y rest].
    + exists r1. destruct fuel as [|fuel]; [simpl in Hlen; lia|].
      rewrite check_alive_past_end by (rewrite <- Hs1, length_app; simpl; lia).
      split; [done|]. by rewrite <- Hs1, Hd1.
    + destruct (IH (kept ++ [y]) rest r1) as (r' & E & Hs' & Hd').
      * rewrite <- Hs1, <- app_assoc. done.
      * rewrite <- app_assoc. simpl.
        apply NoDup_app in Hnd as (Hk & Hkr & Hr).
        apply NoDup_cons in Hr as [_ Hr].
        apply NoDup_app. split; [done|]. split; [|done].
        intros a Ha Ha'. apply (Hkr a Ha). by right.
      * intros a Ha. destruct (Hrest a) as [Hda Hna]; [by do 2 right|].
        split; [done|]. rewrite Hd1.
        intros [?|Hax%list_elem_of_singleton]%elem_of_app; [done|]. subst a.
        apply NoDup_app in Hnd as (_ & _ & Hr).
        apply NoDup_cons in Hr as [Hxr _]. apply Hxr. by right.
      * simpl in *. lia.
      * exists r'. rewrite length_app in E. simpl in E.
        rewrite Nat.add_1_r in E. split; [done|].
        rewrite Hs', Hd', Hd1, <- !app_assoc. done.
Qed.

Lemma evens_odds_subseteq l :
  (forall a, a ∈ evens l -> a ∈ l) /\ (forall a, a ∈ odds l -> a ∈ l).
Proof.
  induction l as [|x l [IHe IHo]]; [done|]. split.
  - intros a Ha. change (a ∈ x :: odds l) in Ha.
    apply elem_of_cons in Ha as [->|Ha]; [by left|]. right. by apply IHo.
  - intros a Ha. right. by apply IHe.
Qed.

(** X14.  When no slave answers, one tick deactivates every other active
    slave only.  On lists that name no active slave twice and share no
    alias, with nothing answering, [check_slaves] returns with the active
    slaves that stood at positions 1, 3, 5, ... still active, in order, and
    those of positions 0, 2, 4, ... appended to [deactivated_slaves]. *)
Theorem check_slaves_all_dead (p : probes) (r : router) :
  NoDup (SLAVES r) ->
  disjoint_slaves r ->
  (forall a, a ∈ SLAVES r -> db_is_alive p a = false) ->
  (forall a, a ∈ deactivated_slaves r -> db_is_alive p a = false) ->
  exists r',
    check_slaves p r = Some (Return r') /\
    SLAVES r' = odds (SLAVES r) /\
    deactivated_slaves r' = deactivated_slaves r ++ evens (SLAVES r).
Proof.
  intros Hnd Hdisj Hs Hd. unfold check_slaves.
  destruct (check_alive_all_dead (S (length (SLAVES r))) p [] (SLAVES r) r)
    as (r1 & E1 & Hs1 & Hd1); [done|done| |lia|].
  { intros a Ha. split; [by apply Hs|]. intros Ha'. by apply (Hdisj a). }
  simpl length in E1. rewrite E1. cbn [and_then].
  exists r1. split; [|done].
  apply check_alive_again_steady; [|lia].
  intros a. rewrite Hd1.
  intros [?|Ha]%elem_of_app; [by apply Hd|]. apply Hs.
  by apply (proj1 (evens_odds_subseteq (SLAVES r))).
Qed.

Lemma check_slaves_all_dead_witness :
  exists r',
    check_slaves all_dead
      (init FailoverReplicationRouter [slave1; slave2; slave3]) = Some (Return r') /\
    SLAVES r' = odds [slave1; slave2; slave3] /\
    deactivated_slaves r' = [] ++ evens [slave1; slave2; slave3].
Proof.
  apply (check_slaves_all_dead all_dead
           (init FailoverReplicationRouter [slave1; slave2; slave3])).
  - apply (bool_decide_unpack _). vm_compute. exact I.
  - intros a _ Ha. simpl in Ha. by apply elem_of_nil in Ha.
  - reflexivity.
  - reflexivity.
Defined.

(** ** What one slave operation touches *)

(** X15.  [deactivate_slave] and [activate_slave] never raise, in any state
    of either router, and they touch nothing but their own alias: the call
    returns with the alias deactivated (respectively active), and every
    other alias is in [SLAVES] and in [deactivated_slaves] exactly if it was
    before; the master is the same. *)
Theorem slave_operations_frame (alias : pyval) (r : router) :
  (exists r', deactivate_slave alias r = Return r' /\
     alias ∈ deactivated_slaves r' /\ master r' = master r /\
     forall x, x <> alias ->
       (x ∈ SLAVES r' <-> x ∈ SLAVES r) /\
       (x ∈ deactivated_slaves r' <-> x ∈ deactivated_slaves r)) /\
  (exists r', activate_slave alias r = Return r' /\
     alias ∈ SLAVES r' /\ master r' = master r /\
     forall x, x <> alias ->
       (x ∈ SLAVES r' <-> x ∈ SLAVES r) /\
       (x ∈ deactivated_slaves r' <-> x ∈ deactivated_slaves r)).
Proof.
  assert (Hrem : forall x l l', x <> alias -> py_remove alias l = Some l' ->
                                (x ∈ l' <-> x ∈ l)).
  { intros x l l' Hne E. split; [by eapply py_remove_subseteq|by eapply py_remove_other]. }
  assert (Happ : forall x l, x <> alias -> (x ∈ l ++ [alias] <-> x ∈ l)).
  { intros x l Hne. rewrite elem_of_app, list_elem_of_singleton. tauto. }
  split.
  - destruct (deactivate_slave_spec alias r) as (r' & E & Hc & Hm & HM & _ & _ & Hd & Hs).
    exists r'. split; [done|]. split; [|split].
    + rewrite Hd. destruct (py_in alias (deactivated_slaves r)) eqn:Ed.
      * by apply py_in_true.
      * apply elem_of_app. right. by left.
    + unfold master. by rewrite Hc, Hm, HM.
    + intros x Hne. split.
      * destruct (py_in alias (SLAVES r)); [by eapply Hrem|by rewrite Hs].
      * rewrite Hd. destruct (py_in alias (deactivated_slaves r)); [done|by apply Happ].
  - destruct (activate_slave_spec alias r) as (r' & E & Hc & Hm & HM & _ & _ & Hs & Hd).
    exists r'. split; [done|]. split; [|split].
    + rewrite Hs. destruct (py_in alias (SLAVES r)) eqn:Es.
      * by apply py_in_true.
      * apply elem_of_app. right. by left.
    + unfold master. by rewrite Hc, Hm, HM.
    + intros x Hne. split.
      * rewrite Hs. destruct (py_in alias (SLAVES r)); [done|by apply Happ].
      * destruct (py_in alias (deactivated_slaves r)); [by eapply Hrem|by rewrite Hd].
Qed.

(** ** Construction and the checkers a router leaves behind *)

(** X16.  What the constructor builds.  The registry starts with the
    default alias as master, the configured slaves active and none
    deactivated.  A checker is started exactly when running is asked for
    (the [run_thread] argument, which overrides the setting
    DATABASE_ASYNC_CHECK) and there is something to check (a slave, or
    master checking); it is then the router's thread, of the class given to
    the constructor or else of the router class's own, with the configured
    interval or 5, and with master checking as configured. *)
Theorem new_router_spec
    (c : router_cls) (s : settings) (run_thread : option bool)
    (checker : option thread_cls) :
  registry (this (new_router c s run_thread checker))
  = (DEFAULT_DB_ALIAS, DATABASE_SLAVES s, []) /\
  threads (new_router c s run_thread checker)
  = (if default (getattr (DATABASE_ASYNC_CHECK s) false) run_thread
        && (negb (bool_decide (DATABASE_SLAVES s = []))
            || getattr (DATABASE_CHECK_MASTER s) false)
     then [Checker (default (class_checker_cls c) checker)
             (Some (getattr (DATABASE_ASYNC_CHECK_INTERVAL s) 5%Q))
             (getattr (DATABASE_CHECK_MASTER s) false) false true]
     else []) /\
  thread (this (new_router c s run_thread checker))
  = (if default (getattr (DATABASE_ASYNC_CHECK s) false) run_thread
        && (negb (bool_decide (DATABASE_SLAVES s = []))
            || getattr (DATABASE_CHECK_MASTER s) false)
     then Some 0 else None).
Proof.
  destruct s as [sl ac cm ci]. unfold new_router, start_thread, getattr. simpl.
  destruct run_thread as [[]|]; simpl;
    destruct ac as [[]|]; simpl;
    destruct (bool_decide (sl = [])); simpl;
    destruct cm as [[]|]; simpl;
    destruct c; done.
Qed.

(** X17.  A checker replaced by a second [start] cannot be stopped through
    the router any more.  After two calls of [start_thread] whose guard
    holds, [stop_thread], however it ends, sets the stop event of the second
    checker only: one more checker is running than before the two calls,
    and calling [stop_thread] again changes nothing. *)
Theorem second_start_orphans_checker
    (force : bool) (s : settings) (pr : process) (ended ended' : bool) :
  force || negb (bool_decide (SLAVES (this pr) = []))
    || getattr (DATABASE_CHECK_MASTER s) false = true ->
  running_checkers
    (state_of (stop_thread ended
                 (start_thread force s (start_thread force s pr))))
  = S (running_checkers pr) /\
  state_of (stop_thread ended'
              (state_of (stop_thread ended
                           (start_thread force s (start_thread force s pr)))))
  = state_of (stop_thread ended
                (start_thread force s (start_thread force s pr))).
Proof.
  intros Hg. split; [|apply stop_thread_state_again].
  destruct (stop_after_start_state force s pr false Hg) as (t1 & E1 & Hr1 & _).
  destruct (stop_after_start_state force s (start_thread force s pr) ended)
    as (t2 & E2 & Hr2 & Estop).
  { by rewrite E1. }
  rewrite Estop, E1. simpl.
  assert (Hst : forall q : process,
            state_of ((if ended then Raise TypeError else Return) q) = q)
    by (intros q; by destruct ended).
  rewrite Hst, !running_checkers_app, Hr1. unfold running. simpl.
  rewrite andb_false_r. unfold running_checkers. simpl. lia.
Qed.

Lemma second_start_orphans_checker_witness :
  running_checkers
    (state_of (stop_thread true
                 (start_thread false two_slaves
                    (start_thread false two_slaves
                       (new_router FailoverReplicationRouter two_slaves
                          (Some false) None)))))
  = S (running_checkers
         (new_router FailoverReplicationRouter two_slaves (Some false) None)).
Proof.
  exact (proj1 (second_start_orphans_checker false two_slaves
                  (new_router FailoverReplicationRouter two_slaves (Some false) None)
                  true true eq_refl)).
Defined.

(** ** The master of the base router *)

(** X18.  On a base router, in any state, [deactivate_master] and
    [activate_master] are each idempotent, and when the master is the
    default alias, deactivating and then activating it returns the router
    exactly as it was. *)
Theorem base_master_round_trip `{SetOrder} (r : router) :
  cls r = FailoverReplicationRouter ->
  (do r1 <- deactivate_master r; deactivate_master r1) = deactivate_master r /\
  (do r1 <- activate_master r; activate_master r1) = activate_master r /\
  (master r = DEFAULT_DB_ALIAS ->
   (do r1 <- deactivate_master r; activate_master r1) = Return r).
Proof.
  intros Hc. unfold deactivate_master, activate_master, set_master, master.
  rewrite Hc. split; [|split].
  - destruct (truthy (_master r)) eqn:Et; simpl; rewrite Hc; simpl; [done|].
    by rewrite Et.
  - destruct (truthy (_master r)) eqn:Et; simpl; rewrite Hc; simpl; [|done].
    by rewrite Et.
  - intros Hm. rewrite Hm. simpl. rewrite Hc. simpl.
    destruct r; simpl in *; by subst.
Qed.

Lemma base_master_round_trip_witness :
  (do r1 <- deactivate_master (init FailoverReplicationRouter [slave1]);
   activate_master r1)
  = Return (init FailoverReplicationRouter [slave1]).
Proof.
  exact (proj2 (proj2 (base_master_round_trip
                         (init FailoverReplicationRouter [slave1]) eq_refl)) eq_refl).
Defined.
